(** * session-timeout: the timer and cross-tab synchronisation core

    A shallow embedding of [src/index.js] (the closure returned by
    [sessionTimeout(options)]) and the properties of its two-stage
    countdown, its dialog and its use of [localStorage].

    Modelling conventions.
    - JavaScript numbers that the code manipulates are instants and
      durations in milliseconds; they are integers here ([Z]) and the one
      non-integer that the code can meet, [NaN] out of [parseInt], is a
      constructor of [JsNum].  Values beyond 2^53, where a double would
      round, are outside the model.
    - Strings are sequences of code units below 256.
    - The host (browser event loop, [setTimeout], [Date.now], the DOM
      dialog, [localStorage]) is a part of the state: a virtual clock, a
      queue of pending timers, a key-value store and a log of every effect
      the session performs, each stamped with the instant it happened.
    - Time is virtual: it does not pass while a handler runs, so every
      [Date.now()] of one handler reads the same instant, and a timer
      fires at the instant it is due.
    - A user-supplied callback is opaque: it is logged when invoked and it
      either returns or throws. *)

From Stdlib Require Import ZArith Lia List Bool Ascii String.
From Stdlib Require Import DecimalString DecimalPos DecimalZ.
From stdpp Require Import base option list gmap strings.

Local Open Scope Z_scope.

(** ** JavaScript values *)

Module Js.

(** A number as [parseInt] and the arithmetic on instants produce it. *)
Inductive JsNum : Type :=
| NaN
| Num (z : Z).

Definition jsSub (a b : JsNum) : JsNum :=
  match a, b with
  | Num x, Num y => Num (x - y)
  | _, _ => NaN
  end.

(** [a >= b] and [a < b]: every comparison with [NaN] is false. *)
Definition jsGe (a b : JsNum) : bool :=
  match a, b with
  | Num x, Num y => y <=? x
  | _, _ => false
  end.

Definition jsLt (a b : JsNum) : bool :=
  match a, b with
  | Num x, Num y => x <? y
  | _, _ => false
  end.

(** Truthiness of a number: [NaN], [0] and [-0] are falsy. *)
Definition truthyNum (a : JsNum) : bool :=
  match a with
  | NaN => false
  | Num z => negb (z =? 0)
  end.

(** Truthiness of a string: only the empty string is falsy. *)
Definition truthyStr (s : string) : bool :=
  match s with
  | EmptyString => false
  | String _ _ => true
  end.

(** [StrWhiteSpaceChar] restricted to code units below 256:
    TAB, LF, VT, FF, CR, SP and NBSP. *)
Definition isWhiteSpace (c : ascii) : bool :=
  let n := N_of_ascii c in
  ((9 <=? n) && (n <=? 13) || (n =? 32) || (n =? 160))%N.

Fixpoint trimStart (s : string) : string :=
  match s with
  | String c r => if isWhiteSpace c then trimStart r else s
  | EmptyString => s
  end.

Definition digitValue (c : ascii) : option Z :=
  let n := N_of_ascii c in
  if ((48 <=? n) && (n <=? 57))%N then Some (Z.of_N n - 48) else None.

(** The longest prefix of decimal digits, read left to right; [acc] is
    [None] until a digit has been seen. *)
Fixpoint parseDigits (s : string) (acc : option Z) : option Z :=
  match s with
  | EmptyString => acc
  | String c r =>
      match digitValue c with
      | Some d =>
          parseDigits r (Some (10 * match acc with Some a => a | None => 0 end + d))
      | None => acc
      end
  end.

(** [parseInt(s, 10)]: leading white space is skipped, one sign is
    accepted, then the longest run of digits is read and whatever follows
    is ignored; with no digit the result is [NaN]. *)
Definition parseInt (s : string) : JsNum :=
  let s1 := trimStart s in
  let '(neg, s2) :=
    match s1 with
    | String "-" r => (true, r)
    | String "+" r => (false, r)
    | _ => (false, s1)
    end in
  match parseDigits s2 None with
  | None => NaN
  | Some v => Num (if neg then - v else v)
  end.

(** [n.toString()] of an integer [n]: its decimal numeral. *)
Definition toString (z : Z) : string :=
  NilEmpty.string_of_int (Z.to_int z).

End Js.

Import Js.

(** ** The host and the session state *)

(** The two callbacks the code hands to [setTimeout]. *)
Inductive TimerCallback : Type :=
| ShowDialogCb      (* () => { showDialog(); } *)
| HandleTimeoutCb.  (* () => { handleTimeout(); } *)

(** A pending timer of the host: its handle, the instant it is due and what
    it runs.  Handles are the positive integers [setTimeout] returns, so a
    handle is always truthy. *)
Record Timer : Type := mkTimer {
  tid : positive;
  due : Z;
  callback : TimerCallback
}.

(** Every effect the session has on its host, in the order performed. *)
Inductive Effect : Type :=
| EvAddListener
| EvRemoveListener
| EvSetItem (key value : string)
| EvSetTimeout (id : positive) (delay : Z) (cb : TimerCallback)
| EvClearTimeout (id : positive)
| EvDialogCreate
| EvShowModal
| EvDialogClose
| EvOnContinue
| EvOnLogout
| EvOnTimeout.

(** A callback option as the caller supplied it: a falsy value (the code
    guards every call with [if (onX)]), or a function that returns or
    throws.  The defaults are functions that return. *)
Inductive Callback : Type :=
| Absent
| Returns
| Throws.

Record Options : Type := mkOptions {
  warnAt : Z;
  timeoutAt : Z;
  onTimeout : Callback;
  onContinue : Callback;
  onLogout : Callback
}.

(** The [typeof ... !== "undefined"] tests the code makes on its host. *)
Record Env : Type := mkEnv {
  hasLocalStorage : bool;
  hasWindow : bool;
  hasAddEventListener : bool;
  hasRemoveEventListener : bool
}.

(** What a [storage] event carries, as far as the code looks at it. *)
Record StorageEvent : Type := mkStorageEvent {
  key : option string;
  newValue : option string
}.

(** The closure variables of one [sessionTimeout] call together with the
    part of the host they act on.  [dialog] is [true] when the variable
    holds the element, which is then attached to the document and open.
    [storageEventListener] is [true] when the variable holds the handler,
    which is then registered on [window]. *)
Record State : Type := mkState {
  now : Z;
  localStorage : gmap string string;
  pending : list Timer;
  nextTimerId : positive;
  warnTimeoutId : option positive;
  redirectTimeoutId : option positive;
  dialog : bool;
  storageEventListener : bool;
  trace : list (Z * Effect)
}.

Definition storageKey : string := "session-timeout-last-reset".

(** *** Field updates *)

Definition setNow (t : Z) (st : State) : State :=
  mkState t (localStorage st) (pending st) (nextTimerId st)
          (warnTimeoutId st) (redirectTimeoutId st) (dialog st)
          (storageEventListener st) (trace st).

Definition setLocalStorage (m : gmap string string) (st : State) : State :=
  mkState (now st) m (pending st) (nextTimerId st)
          (warnTimeoutId st) (redirectTimeoutId st) (dialog st)
          (storageEventListener st) (trace st).

Definition setPending (l : list Timer) (st : State) : State :=
  mkState (now st) (localStorage st) l (nextTimerId st)
          (warnTimeoutId st) (redirectTimeoutId st) (dialog st)
          (storageEventListener st) (trace st).

Definition setNextTimerId (i : positive) (st : State) : State :=
  mkState (now st) (localStorage st) (pending st) i
          (warnTimeoutId st) (redirectTimeoutId st) (dialog st)
          (storageEventListener st) (trace st).

Definition setWarnTimeoutId (h : option positive) (st : State) : State :=
  mkState (now st) (localStorage st) (pending st) (nextTimerId st)
          h (redirectTimeoutId st) (dialog st)
          (storageEventListener st) (trace st).

Definition setRedirectTimeoutId (h : option positive) (st : State) : State :=
  mkState (now st) (localStorage st) (pending st) (nextTimerId st)
          (warnTimeoutId st) h (dialog st)
          (storageEventListener st) (trace st).

Definition setDialog (b : bool) (st : State) : State :=
  mkState (now st) (localStorage st) (pending st) (nextTimerId st)
          (warnTimeoutId st) (redirectTimeoutId st) b
          (storageEventListener st) (trace st).

Definition setStorageEventListener (b : bool) (st : State) : State :=
  mkState (now st) (localStorage st) (pending st) (nextTimerId st)
          (warnTimeoutId st) (redirectTimeoutId st) (dialog st)
          b (trace st).

(** Record an effect at the current instant. *)
Definition log (e : Effect) (st : State) : State :=
  mkState (now st) (localStorage st) (pending st) (nextTimerId st)
          (warnTimeoutId st) (redirectTimeoutId st) (dialog st)
          (storageEventListener st) (trace st ++ [(now st, e)]).

(** *** Host primitives *)

(** [setTimeout(cb, delay)]: the timer is queued behind the pending ones
    and is due [delay] from now (a negative delay counts as zero); the
    handle returned is [nextTimerId] of the state before the call. *)
Definition setTimeout (cb : TimerCallback) (delay : Z) (st : State) : State :=
  let id := nextTimerId st in
  let st1 := log (EvSetTimeout id delay cb) st in
  setNextTimerId (Pos.succ id)
    (setPending (pending st1 ++ [mkTimer id (now st + Z.max 0 delay) cb]) st1).

Definition removeTimer (id : positive) (l : list Timer) : list Timer :=
  List.filter (fun t => negb (Pos.eqb (tid t) id)) l.

(** [clearTimeout(id)]: a handle that is no longer pending is ignored. *)
Definition clearTimeout (id : positive) (st : State) : State :=
  let st1 := log (EvClearTimeout id) st in
  setPending (removeTimer id (pending st1)) st1.

(** Invoke an optional user callback: [if (cb) cb();]. *)
Definition invoke (cb : Callback) (e : Effect) (st : State) : State :=
  match cb with
  | Absent => st
  | Returns | Throws => log e st
  end.

Definition throws (cb : Callback) : bool :=
  match cb with
  | Throws => true
  | Absent | Returns => false
  end.

(** ** The session: [sessionTimeout(options)] *)

Section Session.

Variable opts : Options.
Variable env : Env.

(** [closeDialog]: closes and detaches the dialog if the variable holds
    one, and forgets it. *)
Definition closeDialog (st : State) : State :=
  if dialog st then setDialog false (log EvDialogClose st) else st.

(** [showDialog]: creates and attaches the dialog unless the variable
    holds one already, then calls [showModal]. *)
Definition showDialog (st : State) : State :=
  let st1 := if dialog st then st
             else setDialog true (log EvDialogCreate st) in
  log EvShowModal st1.

Definition handleTimeout (st : State) : State :=
  invoke (onTimeout opts) EvOnTimeout (closeDialog st).

Definition updateLastResetTime (st : State) : State :=
  if hasLocalStorage env then
    let timestamp := now st in
    setLocalStorage (<[storageKey := toString timestamp]> (localStorage st))
                    (log (EvSetItem storageKey (toString timestamp)) st)
  else st.

(** [getLastResetTime]: [None] is JavaScript's [null]. *)
Definition getLastResetTime (st : State) : option JsNum :=
  if hasLocalStorage env then
    match localStorage st !! storageKey with
    | Some stored => if truthyStr stored then Some (parseInt stored) else None
    | None => None
    end
  else None.

(** The two guarded blocks that [startTimers] and [destroy] both open
    with: [if (id) { clearTimeout(id); id = null; }]. *)
Definition clearWarnTimer (st : State) : State :=
  match warnTimeoutId st with
  | Some id => setWarnTimeoutId None (clearTimeout id st)
  | None => st
  end.

Definition clearRedirectTimer (st : State) : State :=
  match redirectTimeoutId st with
  | Some id => setRedirectTimeoutId None (clearTimeout id st)
  | None => st
  end.

Definition startTimers (st : State) : State :=
  let st2 := clearRedirectTimer (clearWarnTimer st) in
  let actualWarnAt := Z.max 0 (warnAt opts) in
  let actualTimeoutAt := Z.max 0 (timeoutAt opts) in
  let st3 := setWarnTimeoutId (Some (nextTimerId st2))
               (setTimeout ShowDialogCb actualWarnAt st2) in
  setRedirectTimeoutId (Some (nextTimerId st3))
    (setTimeout HandleTimeoutCb actualTimeoutAt st3).

(** [handleContinue]: the user callback runs first; when it throws, the
    rest of the handler does not run. *)
Definition handleContinue (st : State) : State :=
  let st1 := invoke (onContinue opts) EvOnContinue st in
  if throws (onContinue opts) then st1
  else startTimers (updateLastResetTime (closeDialog st1)).

Definition handleLogout (st : State) : State :=
  let st1 := invoke (onLogout opts) EvOnLogout st in
  if throws (onLogout opts) then st1
  else closeDialog st1.

Definition handleStorageChange (event : StorageEvent) (st : State) : State :=
  match key event, newValue event with
  | Some k, Some v =>
      if String.eqb k storageKey && truthyStr v then
        let newResetTime := parseInt v in
        let currentTime := Num (now st) in
        let timeSinceReset := jsSub currentTime newResetTime in
        if jsGe timeSinceReset (Num (warnAt opts)) then
          showDialog (closeDialog st)
        else if jsLt timeSinceReset
                     (Num (Z.min (warnAt opts) (timeoutAt opts))) then
          startTimers (closeDialog st)
        else st
      else st
  | _, _ => st
  end.

Definition setupStorageListener (st : State) : State :=
  if hasWindow env && hasAddEventListener env then
    setStorageEventListener true (log EvAddListener st)
  else st.

Definition removeStorageListener (st : State) : State :=
  if storageEventListener st && hasWindow env && hasRemoveEventListener env
  then setStorageEventListener false (log EvRemoveListener st)
  else st.

Definition reset (st : State) : State :=
  startTimers (updateLastResetTime (closeDialog st)).

Definition destroy (st : State) : State :=
  removeStorageListener (closeDialog (clearRedirectTimer (clearWarnTimer st))).

(** The reconciliation at the end of the activation (the block that
    starts at [const lastResetTime = getLastResetTime()]). *)
Definition reconcileOnActivation (st : State) : State :=
  match getLastResetTime st with
  | Some (Num lastResetTime) =>
      if truthyNum (Num lastResetTime) then
        let timeSinceReset := now st - lastResetTime in
        let minTimeout := Z.min (warnAt opts) (timeoutAt opts) in
        if warnAt opts <=? timeSinceReset then
          showDialog st
        else if timeSinceReset <? minTimeout then
          let remainingWarnTime := Z.max 0 (warnAt opts - timeSinceReset) in
          let remainingTimeoutTime :=
            Z.max 0 (timeoutAt opts - timeSinceReset) in
          let st1 :=
            if 0 <? remainingWarnTime then
              setWarnTimeoutId (Some (nextTimerId st))
                (setTimeout ShowDialogCb remainingWarnTime st)
            else st in
          if 0 <? remainingTimeoutTime then
            setRedirectTimeoutId (Some (nextTimerId st1))
              (setTimeout HandleTimeoutCb remainingTimeoutTime st1)
          else st1
        else startTimers st
      else startTimers st
  | Some NaN | None => startTimers st
  end.

(** The closure variables as the function body initialises them, in a
    tab whose clock reads [t], whose store holds [ls] and whose next
    timer handle is [id]. *)
Definition freshSession (t : Z) (ls : gmap string string) (id : positive)
  : State :=
  mkState t ls [] id None None false false [].

(** The body of [sessionTimeout] after the declarations: subscribe,
    publish the activation instant, reconcile. *)
Definition sessionTimeout (st : State) : State :=
  reconcileOnActivation (updateLastResetTime (setupStorageListener st)).

(** *** Virtual time *)

(** The pending timer that is due first; among timers due at the same
    instant, the one queued first. *)
Fixpoint earliest (l : list Timer) : option Timer :=
  match l with
  | [] => None
  | t :: r =>
      match earliest r with
      | Some u => if due u <? due t then Some u else Some t
      | None => Some t
      end
  end.

Definition nextDue (target : Z) (l : list Timer) : option Timer :=
  earliest (List.filter (fun t => due t <=? target) l).

(** The host runs a due timer: it leaves the queue, the clock reads its
    due instant (or later, if it was overdue) and its callback runs. *)
Definition fire (t : Timer) (st : State) : State :=
  let st1 := setNow (Z.max (now st) (due t))
               (setPending (removeTimer (tid t) (pending st)) st) in
  match callback t with
  | ShowDialogCb => showDialog st1
  | HandleTimeoutCb => handleTimeout st1
  end.

Fixpoint runDue (fuel : nat) (target : Z) (st : State) : State :=
  match fuel with
  | O => st
  | S fuel' =>
      match nextDue target (pending st) with
      | Some t => runDue fuel' target (fire t st)
      | None => st
      end
  end.

(** Let virtual time run up to [target]: every timer due by then fires,
    in order.  No callback of this program starts a timer, so one round
    per pending timer is enough ([runDue_complete] below). *)
Definition advanceTo (target : Z) (st : State) : State :=
  if target <? now st then st
  else setNow target (runDue (length (pending st)) target st).

(** *** What can happen to a session *)

Inductive Input : Type :=
| Elapse (dt : Z)
| Storage (event : StorageEvent)
| ClickContinue
| ClickLogout
| CallShow
| CallClose
| CallReset
| CallDestroy.

(** The buttons exist while the dialog does; the host delivers a storage
    event to the handler while it is registered. *)
Definition step (i : Input) (st : State) : State :=
  match i with
  | Elapse dt => if dt <? 0 then st else advanceTo (now st + dt) st
  | Storage event =>
      if storageEventListener st then handleStorageChange event st else st
  | ClickContinue => if dialog st then handleContinue st else st
  | ClickLogout => if dialog st then handleLogout st else st
  | CallShow => showDialog st
  | CallClose => closeDialog st
  | CallReset => reset st
  | CallDestroy => destroy st
  end.

Definition run (inputs : list Input) (st : State) : State :=
  fold_left (fun s i => step i s) inputs st.

Inductive reachable : State -> Prop :=
| reach_activation (t : Z) (ls : gmap string string) (id : positive) :
    reachable (sessionTimeout (freshSession t ls id))
| reach_step (i : Input) (st : State) :
    reachable st -> reachable (step i st).

End Session.

(** ** Observations and invariants *)

Definition isWarn (t : Timer) : bool :=
  match callback t with
  | ShowDialogCb => true
  | HandleTimeoutCb => false
  end.

Definition isRedirect (t : Timer) : bool :=
  match callback t with
  | ShowDialogCb => false
  | HandleTimeoutCb => true
  end.

(** The instants at which a warn callback, respectively a timeout
    callback, is pending. *)
Definition warnDue (st : State) : list Z :=
  map due (List.filter isWarn (pending st)).

Definition redirectDue (st : State) : list Z :=
  map due (List.filter isRedirect (pending st)).

(** The part of a trace that was added after [before]. *)
Definition traceSince (before : State) (after : State) : list (Z * Effect) :=
  skipn (length (trace before)) (trace after).

(** A pending timer is tracked when the variable for its kind holds its
    handle. *)
Definition tracked (st : State) (t : Timer) : Prop :=
  match callback t with
  | ShowDialogCb => warnTimeoutId st = Some (tid t)
  | HandleTimeoutCb => redirectTimeoutId st = Some (tid t)
  end.

(** The handle invariant of a session: every pending timer is the one its
    variable names, handles are not reused, and the handler is registered
    only where the host lets it be. *)
Record Inv (env : Env) (st : State) : Prop := mkInv {
  inv_tracked : Forall (tracked st) (pending st);
  inv_nodup : NoDup (map tid (pending st));
  inv_fresh : Forall (fun t => (tid t < nextTimerId st)%positive) (pending st);
  inv_listener :
    storageEventListener st = true ->
    hasWindow env = true /\ hasAddEventListener env = true
}.

(** What the host does on its own: time passes, other tabs write. *)
Definition hostEvent (i : Input) : bool :=
  match i with
  | Elapse _ | Storage _ => true
  | _ => false
  end.

(** The events a callback invocation leaves in the trace at instant [t]. *)
Definition invoked (cb : Callback) (e : Effect) (t : Z) : list (Z * Effect) :=
  match cb with
  | Absent => []
  | Returns | Throws => [(t, e)]
  end.

(** The events [showDialog] and [closeDialog] leave at instant [t], given
    whether the dialog existed. *)
Definition shown (existed : bool) (t : Z) : list (Z * Effect) :=
  (if existed then [] else [(t, EvDialogCreate)]) ++ [(t, EvShowModal)].

Definition closed (existed : bool) (t : Z) : list (Z * Effect) :=
  if existed then [(t, EvDialogClose)] else [].

(** The two timers a fresh countdown queues at instant [t] with first free
    handle [id]. *)
Definition freshTimers (opts : Options) (t : Z) (id : positive) : list Timer :=
  [ mkTimer id (t + Z.max 0 (warnAt opts)) ShowDialogCb;
    mkTimer (Pos.succ id) (t + Z.max 0 (timeoutAt opts)) HandleTimeoutCb ].

(** The events of [updateLastResetTime], of one guarded clear and of the
    two [setTimeout] calls of [startTimers], at instant [t]. *)
Definition published (env : Env) (t : Z) : list (Z * Effect) :=
  if hasLocalStorage env then [(t, EvSetItem storageKey (toString t))] else [].

Definition cleared (h : option positive) (t : Z) : list (Z * Effect) :=
  match h with
  | Some id => [(t, EvClearTimeout id)]
  | None => []
  end.

Definition armed (opts : Options) (t : Z) (id : positive) : list (Z * Effect) :=
  [ (t, EvSetTimeout id (Z.max 0 (warnAt opts)) ShowDialogCb);
    (t, EvSetTimeout (Pos.succ id) (Z.max 0 (timeoutAt opts)) HandleTimeoutCb) ].

(** Everything [reset] does after the dialog is closed, as a trace. *)
Definition restarted (opts : Options) (env : Env) (st : State)
  : list (Z * Effect) :=
  published env (now st)
  ++ cleared (warnTimeoutId st) (now st)
  ++ cleared (redirectTimeoutId st) (now st)
  ++ armed opts (now st) (nextTimerId st).

(** Is this effect a call of [setTimeout] or [clearTimeout]? *)
Definition isTimerEffect (e : Z * Effect) : bool :=
  match snd e with
  | EvSetTimeout _ _ _ | EvClearTimeout _ => true
  | _ => false
  end.

(** Is this effect the invocation of a user-supplied callback? *)
Definition isUserAction (e : Z * Effect) : bool :=
  match snd e with
  | EvOnContinue | EvOnLogout | EvOnTimeout => true
  | _ => false
  end.

(** The order the specification asks of a handler's effects: no timer
    handle is cleared or set once a user callback has been invoked. *)
Fixpoint timersSettledFirst (tr : list (Z * Effect)) : bool :=
  match tr with
  | [] => true
  | e :: r =>
      if isUserAction e then negb (existsb isTimerEffect r)
      else timersSettledFirst r
  end.

(** ** A running example

    [warnAt = 100], [timeoutAt = 200], every host facility present, a tab
    activated at instant 1000 with an empty store and first free timer
    handle 1. *)

Definition exOpts : Options := mkOptions 100 200 Returns Returns Returns.

Definition exEnv : Env := mkEnv true true true true.

Definition exActivated : State :=
  sessionTimeout exOpts exEnv (freshSession 1000 ∅ 1).

(** 30 ms later, nothing has fired yet. *)
Definition exCounting : State := step exOpts exEnv (Elapse 30) exActivated.

(** 150 ms after activation the warning is showing and the timeout leg is
    still pending. *)
Definition exWarned : State := step exOpts exEnv (Elapse 150) exActivated.

(** The same options with callbacks that throw. *)
Definition exThrowing : Options := mkOptions 100 200 Throws Throws Throws.

Definition exWarnedThrowing : State :=
  step exThrowing exEnv (Elapse 150)
       (sessionTimeout exThrowing exEnv (freshSession 1000 ∅ 1)).

(** A storage event for the session's key carrying the instant [t]. *)
Definition resetEvent (t : Z) : StorageEvent :=
  mkStorageEvent (Some storageKey) (Some (toString t)).

(** A store in which another tab recorded a reset 50 ms before the
    example activation, and one whose record is not a number. *)
Definition exPersisted : gmap string string :=
  {[ storageKey := toString 950 ]}.

Definition exMalformed : gmap string string :=
  {[ storageKey := "abc"%string ]}.

(** ** Counting effects and scheduling *)

(** How many effects of a trace satisfy [p]. *)
Fixpoint tally (p : Effect -> bool) (tr : list (Z * Effect)) : Z :=
  match tr with
  | [] => 0
  | (_, e) :: r => (if p e then 1 else 0) + tally p r
  end.

Definition isDialogCreate (e : Effect) : bool :=
  match e with EvDialogCreate => true | _ => false end.

Definition isDialogClose (e : Effect) : bool :=
  match e with EvDialogClose => true | _ => false end.

Definition isAddListener (e : Effect) : bool :=
  match e with EvAddListener => true | _ => false end.

Definition isRemoveListener (e : Effect) : bool :=
  match e with EvRemoveListener => true | _ => false end.

Definition isSetItem (e : Effect) : bool :=
  match e with EvSetItem _ _ => true | _ => false end.

Definition isCallback (e : Effect) : bool :=
  match e with EvOnContinue | EvOnLogout | EvOnTimeout => true | _ => false end.

Definition b2z (b : bool) : Z := if b then 1 else 0.

(** The trace agrees with the closure variables: the dialogs created and
    not yet closed are the one the variable holds, the handlers added and
    not yet removed are the one the variable holds, and the handler was
    added at most once. *)
Record Balanced (st : State) : Prop := mkBalanced {
  bal_dialog :
    tally isDialogCreate (trace st) - tally isDialogClose (trace st)
    = b2z (dialog st);
  bal_listener :
    tally isAddListener (trace st) - tally isRemoveListener (trace st)
    = b2z (storageEventListener st);
  bal_once : tally isAddListener (trace st) <= 1
}.

(** No pending timer is overdue. *)
Definition Sched (st : State) : Prop :=
  Forall (fun t => now st <= due t) (pending st).

(** A host without [localStorage], and one without a store whose clock
    reads 1000. *)
Definition exNoStore : Env := mkEnv false true true true.

(** Options whose warning is due at once. *)
Definition exZeroWarn : Options := mkOptions 0 200 Returns Returns Returns.

(** Options that put the timeout before the warning, options with negative
    durations, and a host without [addEventListener]. *)
Definition exInverted : Options := mkOptions 200 100 Returns Returns Returns.

Definition exNegative : Options := mkOptions (-1000) (-5) Returns Returns Returns.

Definition exNoListener : Env := mkEnv true true false false.

(** * Properties *)

(** ** Examples of [parseInt] and [toString] *)

Example parseInt_plain : parseInt "1700000000950" = Num 1700000000950.
Proof. reflexivity. Qed.

Example parseInt_trailing : parseInt "  -42px" = Num (-42).
Proof. reflexivity. Qed.

Example parseInt_garbage : parseInt "abc" = NaN.
Proof. reflexivity. Qed.

Example parseInt_sign_only : parseInt "-" = NaN.
Proof. reflexivity. Qed.

Example toString_neg : toString (-305) = "-305"%string.
Proof. reflexivity. Qed.

(** ** [parseInt] reads back what [toString] wrote *)

Section ParseRoundTrip.

Ltac eval_digit :=
  match goal with
  | |- context [digitValue ?c] =>
      let v := eval vm_compute in (digitValue c) in
      change (digitValue c) with v; cbv iota beta
  end.

Lemma parseDigits_of_uint_acc (d : Decimal.uint) (p : positive) :
  parseDigits (NilEmpty.string_of_uint d) (Some (Z.pos p))
  = Some (Z.pos (Pos.of_uint_acc d p)).
Proof.
  revert p. induction d; intros p; [reflexivity | ..];
    cbn [NilEmpty.string_of_uint Pos.of_uint_acc parseDigits];
    eval_digit; rewrite <- IHd; do 2 f_equal; lia.
Qed.

Lemma parseDigits_of_uint_zero (d : Decimal.uint) :
  parseDigits (NilEmpty.string_of_uint d) (Some 0)
  = Some (Z.of_N (Pos.of_uint d)).
Proof.
  induction d; [reflexivity | ..];
    cbn [NilEmpty.string_of_uint Pos.of_uint parseDigits];
    eval_digit; [exact IHd | ..];
    cbn [Z.of_N]; rewrite <- parseDigits_of_uint_acc; reflexivity.
Qed.

Lemma parseDigits_of_uint (d : Decimal.uint) :
  d <> Decimal.Nil ->
  parseDigits (NilEmpty.string_of_uint d) None
  = Some (Z.of_N (Pos.of_uint d)).
Proof.
  intros Hd. rewrite <- parseDigits_of_uint_zero.
  destruct d; [congruence | reflexivity ..].
Qed.

Lemma string_of_uint_head (d : Decimal.uint) :
  d <> Decimal.Nil ->
  exists c r, NilEmpty.string_of_uint d = String c r
              /\ isWhiteSpace c = false /\ c <> "-"%char /\ c <> "+"%char.
Proof.
  intros Hd. destruct d; [congruence | ..]; cbn;
    eexists _, _; (split; [reflexivity |]); repeat split; discriminate.
Qed.

Lemma parseInt_unsigned (d : Decimal.uint) :
  d <> Decimal.Nil ->
  parseInt (NilEmpty.string_of_uint d) = Num (Z.of_N (Pos.of_uint d)).
Proof.
  intros Hd.
  destruct (string_of_uint_head d Hd) as (c & r & E & Hw & Hm & Hp).
  unfold parseInt. rewrite E. cbn [trimStart]. rewrite Hw.
  assert (Hs : (let '(neg, s2) :=
                  match String c r with
                  | String "-" r0 => (true, r0)
                  | String "+" r0 => (false, r0)
                  | _ => (false, String c r)
                  end in
                match parseDigits s2 None with
                | None => NaN
                | Some v => Num (if neg then - v else v)
                end)
               = match parseDigits (String c r) None with
                 | None => NaN
                 | Some v => Num v
                 end).
  { destruct c as [[] [] [] [] [] [] [] []]; try reflexivity; congruence. }
  rewrite Hs, <- E, parseDigits_of_uint by assumption. reflexivity.
Qed.

Lemma parseInt_toString (z : Z) : parseInt (toString z) = Num z.
Proof.
  destruct z as [| p | p]; [reflexivity | ..].
  - unfold toString. cbn [Z.to_int NilEmpty.string_of_int].
    rewrite parseInt_unsigned by apply Unsigned.to_uint_nonnil.
    now rewrite Unsigned.of_to.
  - unfold toString. cbn [Z.to_int NilEmpty.string_of_int].
    unfold parseInt. cbn [trimStart].
    change (isWhiteSpace "-") with false. cbv iota beta.
    rewrite parseDigits_of_uint by apply Unsigned.to_uint_nonnil.
    now rewrite Unsigned.of_to.
Qed.

Lemma toString_truthy (z : Z) : truthyStr (toString z) = true.
Proof.
  destruct z as [| p | p]; [reflexivity | | reflexivity].
  unfold toString. cbn [Z.to_int NilEmpty.string_of_int].
  destruct (string_of_uint_head (Pos.to_uint p)) as (c & r & E & _).
  - apply Unsigned.to_uint_nonnil.
  - now rewrite E.
Qed.

End ParseRoundTrip.

(** ** Frame facts: what each operation leaves alone *)

Section Frames.

Context (opts : Options) (env : Env).

Ltac unfold_ops :=
  unfold handleLogout, handleTimeout, updateLastResetTime, invoke,
    setupStorageListener, removeStorageListener, showDialog, closeDialog,
    clearWarnTimer, clearRedirectTimer, clearTimeout, setTimeout in *.

Ltac frame :=
  unfold_ops;
  repeat match goal with
         | |- context [if ?b then _ else _] => destruct b
         | |- context [match ?c with Absent => _ | _ => _ end] => destruct c
         end;
  cbn; auto.

Lemma Inv_ext (a b : State) :
  pending b = pending a ->
  nextTimerId b = nextTimerId a ->
  warnTimeoutId b = warnTimeoutId a ->
  redirectTimeoutId b = redirectTimeoutId a ->
  (storageEventListener b = true -> storageEventListener a = true) ->
  Inv env a -> Inv env b.
Proof.
  intros Hp Hn Hw Hr Hl [Ht Hd Hf Hs]. split.
  - rewrite Hp. eapply Forall_impl; [exact Ht |].
    intros t. unfold tracked. now rewrite Hw, Hr.
  - now rewrite Hp.
  - now rewrite Hp, Hn.
  - auto.
Qed.

Lemma Inv_log (e : Effect) (st : State) : Inv env st -> Inv env (log e st).
Proof. now apply Inv_ext. Qed.

Lemma Inv_setNow (t : Z) (st : State) : Inv env st -> Inv env (setNow t st).
Proof. now apply Inv_ext. Qed.

Lemma Inv_closeDialog (st : State) : Inv env st -> Inv env (closeDialog st).
Proof. apply Inv_ext; frame. Qed.

Lemma Inv_showDialog (st : State) : Inv env st -> Inv env (showDialog st).
Proof. apply Inv_ext; frame. Qed.

Lemma Inv_handleTimeout (st : State) :
  Inv env st -> Inv env (handleTimeout opts st).
Proof. apply Inv_ext; frame. Qed.

Lemma Inv_handleLogout (st : State) :
  Inv env st -> Inv env (handleLogout opts st).
Proof. apply Inv_ext; frame. Qed.

Lemma Inv_invoke (cb : Callback) (e : Effect) (st : State) :
  Inv env st -> Inv env (invoke cb e st).
Proof. apply Inv_ext; frame. Qed.

Lemma Inv_updateLastResetTime (st : State) :
  Inv env st -> Inv env (updateLastResetTime env st).
Proof. apply Inv_ext; frame. Qed.

Lemma Inv_removeStorageListener (st : State) :
  Inv env st -> Inv env (removeStorageListener env st).
Proof. apply Inv_ext; frame; discriminate. Qed.

Lemma Inv_setupStorageListener (st : State) :
  Inv env st -> Inv env (setupStorageListener env st).
Proof.
  intros [Ht Hd Hf Hs]. unfold setupStorageListener.
  destruct (hasWindow env) eqn:Ew, (hasAddEventListener env) eqn:Ea;
    cbn; split; cbn; auto; intros; rewrite ?Ew, ?Ea; auto.
Qed.

Lemma In_map_filter {A B : Type} (f : A -> B) (keep : A -> bool)
      (l : list A) (y : B) :
  In y (map f (List.filter keep l)) -> In y (map f l).
Proof.
  induction l as [| x l IH]; cbn; [easy |].
  destruct (keep x); cbn; tauto.
Qed.

Lemma NoDup_map_filter {A B : Type} (f : A -> B) (keep : A -> bool)
      (l : list A) :
  NoDup (map f l) -> NoDup (map f (List.filter keep l)).
Proof.
  induction l as [| x l IH]; cbn; [easy |].
  intros Hd. apply NoDup_cons in Hd as [Hx Hl].
  destruct (keep x); cbn; [| now apply IH].
  apply NoDup_cons. split; [| now apply IH].
  intros Hin. apply Hx. apply list_elem_of_In.
  eapply In_map_filter. apply list_elem_of_In, Hin.
Qed.

(** Removing timers keeps the invariant as long as the variables still
    name what remains. *)
Lemma Inv_sub (a b : State) (keep : Timer -> bool) :
  pending b = List.filter keep (pending a) ->
  nextTimerId b = nextTimerId a ->
  Forall (tracked b) (pending b) ->
  storageEventListener b = storageEventListener a ->
  Inv env a -> Inv env b.
Proof.
  intros Hp Hn Ht Hl [_ Hd Hf Hs]. split.
  - exact Ht.
  - rewrite Hp. now apply NoDup_map_filter.
  - rewrite Hp, Hn. clear - Hf. induction Hf; cbn; [constructor |].
    destruct (keep x); auto.
  - rewrite Hl. exact Hs.
Qed.

Lemma removeTimer_In (id : positive) (l : list Timer) (t : Timer) :
  In t (removeTimer id l) <-> In t l /\ tid t <> id.
Proof.
  unfold removeTimer. rewrite filter_In, negb_true_iff, Pos.eqb_neq. tauto.
Qed.

Lemma Inv_clearWarnTimer (st : State) :
  Inv env st -> Inv env (clearWarnTimer st).
Proof.
  intros HI. unfold clearWarnTimer.
  destruct (warnTimeoutId st) as [id |] eqn:Ew; [| exact HI].
  eapply Inv_sub with (a := st) (keep := fun t => negb (Pos.eqb (tid t) id));
    try reflexivity; [| exact HI].
  cbn. apply List.Forall_forall. intros t Hin.
  apply removeTimer_In in Hin as [Hin Hne].
  pose proof (inv_tracked _ _ HI) as Ht.
  rewrite List.Forall_forall in Ht. specialize (Ht t Hin).
  unfold tracked in *. cbn. destruct (callback t); [congruence | exact Ht].
Qed.

Lemma Inv_clearRedirectTimer (st : State) :
  Inv env st -> Inv env (clearRedirectTimer st).
Proof.
  intros HI. unfold clearRedirectTimer.
  destruct (redirectTimeoutId st) as [id |] eqn:Er; [| exact HI].
  eapply Inv_sub with (a := st) (keep := fun t => negb (Pos.eqb (tid t) id));
    try reflexivity; [| exact HI].
  cbn. apply List.Forall_forall. intros t Hin.
  apply removeTimer_In in Hin as [Hin Hne].
  pose proof (inv_tracked _ _ HI) as Ht.
  rewrite List.Forall_forall in Ht. specialize (Ht t Hin).
  unfold tracked in *. cbn. destruct (callback t); [exact Ht | congruence].
Qed.

(** After the two guarded blocks nothing of this session is pending. *)
Lemma pending_cleared (st : State) :
  Inv env st -> pending (clearRedirectTimer (clearWarnTimer st)) = [].
Proof.
  intros HI. pose proof (inv_tracked _ _ HI) as Ht.
  destruct (pending (clearRedirectTimer (clearWarnTimer st))) as [| t l] eqn:E;
    [reflexivity | exfalso].
  assert (Hin : In t (pending (clearRedirectTimer (clearWarnTimer st))))
    by (rewrite E; now left).
  clear E. rewrite List.Forall_forall in Ht.
  unfold clearRedirectTimer, clearWarnTimer in Hin.
  destruct (warnTimeoutId st) as [w |] eqn:Ew;
    cbn in Hin; destruct (redirectTimeoutId st) as [r |] eqn:Er; cbn in Hin;
    repeat (apply removeTimer_In in Hin as [Hin ?]);
    specialize (Ht t Hin); unfold tracked in Ht;
    destruct (callback t); congruence.
Qed.

Lemma cleared_fields (st : State) :
  let st2 := clearRedirectTimer (clearWarnTimer st) in
  now st2 = now st /\ nextTimerId st2 = nextTimerId st
  /\ warnTimeoutId st2 = None /\ redirectTimeoutId st2 = None
  /\ dialog st2 = dialog st /\ localStorage st2 = localStorage st
  /\ storageEventListener st2 = storageEventListener st.
Proof.
  unfold clearRedirectTimer, clearWarnTimer.
  destruct (warnTimeoutId st) eqn:Ew; cbn;
    destruct (redirectTimeoutId st) eqn:Er; cbn; rewrite ?Ew, ?Er; cbn;
    repeat split; auto.
Qed.

End Frames.

(** ** [startTimers] and the handle invariant *)

Section Countdown.

Context (opts : Options) (env : Env).

Lemma startTimers_pending (st : State) :
  Inv env st ->
  pending (startTimers opts st) = freshTimers opts (now st) (nextTimerId st).
Proof.
  intros HI. unfold startTimers, freshTimers.
  pose proof (pending_cleared env st HI) as Hp.
  destruct (cleared_fields st) as (Hn & Hi & _).
  set (st2 := clearRedirectTimer (clearWarnTimer st)) in *.
  cbn. rewrite Hp, Hn, Hi. cbn.
  now rewrite !(Z.max_r 0 (Z.max 0 _)) by lia.
Qed.

Lemma startTimers_fields (st : State) :
  let st' := startTimers opts st in
  now st' = now st /\ dialog st' = dialog st
  /\ localStorage st' = localStorage st
  /\ storageEventListener st' = storageEventListener st
  /\ warnTimeoutId st' = Some (nextTimerId st)
  /\ redirectTimeoutId st' = Some (Pos.succ (nextTimerId st))
  /\ nextTimerId st' = Pos.succ (Pos.succ (nextTimerId st)).
Proof.
  unfold startTimers.
  destruct (cleared_fields st) as (Hn & Hi & _ & _ & Hd & Hs & Hl).
  set (st2 := clearRedirectTimer (clearWarnTimer st)) in *.
  cbn. rewrite Hn, Hi, Hd, Hs, Hl. repeat split; reflexivity.
Qed.

(** The effects of [startTimers], in order: the guarded clears, then the
    two [setTimeout] calls. *)
Lemma startTimers_trace (st : State) :
  trace (startTimers opts st)
  = trace st
    ++ match warnTimeoutId st with
       | Some id => [(now st, EvClearTimeout id)]
       | None => []
       end
    ++ match redirectTimeoutId st with
       | Some id => [(now st, EvClearTimeout id)]
       | None => []
       end
    ++ [ (now st, EvSetTimeout (nextTimerId st) (Z.max 0 (warnAt opts))
                               ShowDialogCb);
         (now st, EvSetTimeout (Pos.succ (nextTimerId st))
                               (Z.max 0 (timeoutAt opts)) HandleTimeoutCb) ].
Proof.
  unfold startTimers, clearRedirectTimer, clearWarnTimer.
  destruct (warnTimeoutId st) eqn:Ew; cbn;
    destruct (redirectTimeoutId st) eqn:Er; cbn; rewrite ?Er; cbn;
    rewrite <- ?app_assoc; reflexivity.
Qed.

Lemma Inv_freshTimers (st : State) :
  pending st = freshTimers opts (now st) (Pos.pred (Pos.pred (nextTimerId st))) ->
  (2 < nextTimerId st)%positive ->
  warnTimeoutId st = Some (Pos.pred (Pos.pred (nextTimerId st))) ->
  redirectTimeoutId st = Some (Pos.pred (nextTimerId st)) ->
  (storageEventListener st = true ->
   hasWindow env = true /\ hasAddEventListener env = true) ->
  Inv env st.
Proof.
  intros Hp Hlt Hw Hr Hl.
  assert (Hs : Pos.succ (Pos.pred (Pos.pred (nextTimerId st)))
               = Pos.pred (nextTimerId st)) by lia.
  split; rewrite ?Hp; unfold freshTimers; cbn; auto.
  - repeat constructor; unfold tracked; cbn; congruence.
  - rewrite Hs. apply NoDup_cons. split; [| apply NoDup_singleton].
    intros Hin. apply list_elem_of_singleton in Hin. lia.
  - repeat constructor; cbn; lia.
Qed.

Lemma Inv_startTimers (st : State) :
  Inv env st -> Inv env (startTimers opts st).
Proof.
  intros HI.
  pose proof (startTimers_pending st HI) as Hp.
  destruct (startTimers_fields st) as (Hn & _ & _ & Hl & Hw & Hr & Hi).
  apply Inv_freshTimers; rewrite ?Hp, ?Hn, ?Hi, ?Hw, ?Hr, ?Hl.
  - f_equal. lia.
  - lia.
  - f_equal. lia.
  - f_equal. lia.
  - apply (inv_listener _ _ HI).
Qed.

Lemma Inv_freshSession (t : Z) (ls : gmap string string) (id : positive) :
  Inv env (freshSession t ls id).
Proof. split; cbn; try constructor; discriminate. Qed.

End Countdown.

(** ** Virtual time: firing and advancing *)

Section VirtualTime.

Context (opts : Options) (env : Env).

Lemma earliest_In (l : list Timer) (t : Timer) :
  earliest l = Some t -> In t l.
Proof.
  revert t. induction l as [| x l IH]; cbn; [discriminate |].
  intros t. destruct (earliest l) as [u |].
  - destruct (due u <? due x); intros [= <-]; auto.
  - intros [= <-]. auto.
Qed.

Lemma earliest_min (l : list Timer) (t u : Timer) :
  earliest l = Some t -> In u l -> due t <= due u.
Proof.
  revert t. induction l as [| x l IH]; cbn; [discriminate |].
  intros t Ht Hin. destruct (earliest l) as [v |] eqn:Ev.
  - specialize (IH v eq_refl).
    destruct (Z.ltb_spec (due v) (due x)); injection Ht as <-;
      destruct Hin as [<- | Hin]; try lia; specialize (IH Hin); lia.
  - injection Ht as <-. destruct Hin as [<- | Hin]; [lia |].
    destruct l; [destruct Hin | cbn in Ev].
    destruct (earliest l); [destruct (due t0 <? due t) |]; discriminate.
Qed.

Lemma nextDue_In (target : Z) (l : list Timer) (t : Timer) :
  nextDue target l = Some t -> In t l /\ due t <= target.
Proof.
  unfold nextDue. intros H. apply earliest_In, filter_In in H.
  destruct H as [Hin Hle]. split; [exact Hin | lia].
Qed.

Lemma nextDue_min (target : Z) (l : list Timer) (t u : Timer) :
  nextDue target l = Some t -> In u l -> due u <= target -> due t <= due u.
Proof.
  unfold nextDue. intros H Hin Hle. eapply earliest_min; [exact H |].
  apply filter_In. split; [exact Hin | lia].
Qed.

Lemma nextDue_None (target : Z) (l : list Timer) :
  nextDue target l = None <-> Forall (fun t => target < due t) l.
Proof.
  unfold nextDue. induction l as [| x l IH]; cbn.
  - split; [constructor | reflexivity].
  - destruct (Z.leb_spec (due x) target) as [Hle | Hgt]; cbn.
    + split.
      * destruct (earliest _) as [u |]; [destruct (due u <? due x) |];
          discriminate.
      * intros HF. inversion HF; subst. lia.
    + rewrite IH. split; [now constructor | now inversion 1].
Qed.

Lemma removeTimer_length (t : Timer) (l : list Timer) :
  In t l -> (length (removeTimer (tid t) l) < length l)%nat.
Proof.
  unfold removeTimer. induction l as [| x l IH]; cbn; [easy |].
  intros [-> | Hin].
  - rewrite Pos.eqb_refl. cbn.
    pose proof (filter_length_le (fun u => negb (Pos.eqb (tid u) (tid t))) l).
    lia.
  - specialize (IH Hin). destruct (negb _); cbn; lia.
Qed.

Lemma fire_pending (t : Timer) (st : State) :
  pending (fire opts t st) = removeTimer (tid t) (pending st).
Proof.
  unfold fire, showDialog, handleTimeout, invoke, closeDialog.
  destruct (callback t); cbn; [destruct (dialog st); reflexivity |].
  destruct (dialog st), (onTimeout opts); reflexivity.
Qed.

Lemma fire_fields (t : Timer) (st : State) :
  nextTimerId (fire opts t st) = nextTimerId st
  /\ warnTimeoutId (fire opts t st) = warnTimeoutId st
  /\ redirectTimeoutId (fire opts t st) = redirectTimeoutId st
  /\ storageEventListener (fire opts t st) = storageEventListener st
  /\ localStorage (fire opts t st) = localStorage st
  /\ now (fire opts t st) = Z.max (now st) (due t).
Proof.
  unfold fire, showDialog, handleTimeout, invoke, closeDialog.
  destruct (callback t); cbn; [destruct (dialog st); cbn; auto 10 |].
  destruct (dialog st), (onTimeout opts); cbn; auto 10.
Qed.

Lemma Inv_fire (t : Timer) (st : State) :
  Inv env st -> Inv env (fire opts t st).
Proof.
  intros HI. destruct (fire_fields t st) as (Hn & Hw & Hr & Hl & _).
  eapply Inv_sub with (a := st); eauto using fire_pending.
  rewrite fire_pending. apply List.Forall_forall. intros u Hin.
  apply removeTimer_In in Hin as [Hin _].
  pose proof (inv_tracked _ _ HI) as Ht.
  rewrite List.Forall_forall in Ht. specialize (Ht u Hin).
  unfold tracked in *. now rewrite Hw, Hr.
Qed.

Lemma Inv_runDue (fuel : nat) (target : Z) (st : State) :
  Inv env st -> Inv env (runDue opts fuel target st).
Proof.
  revert st. induction fuel as [| fuel IH]; intros st HI; cbn; [exact HI |].
  destruct (nextDue target (pending st)); [| exact HI].
  apply IH, Inv_fire, HI.
Qed.

Lemma Inv_advanceTo (target : Z) (st : State) :
  Inv env st -> Inv env (advanceTo opts target st).
Proof.
  intros HI. unfold advanceTo. destruct (target <? now st); [exact HI |].
  apply Inv_setNow, Inv_runDue, HI.
Qed.

(** One round per pending timer is enough: when [runDue] stops, nothing
    that is due is left in the queue. *)
Lemma runDue_complete (fuel : nat) (target : Z) (st : State) :
  (length (pending st) <= fuel)%nat ->
  nextDue target (pending (runDue opts fuel target st)) = None.
Proof.
  revert st. induction fuel as [| fuel IH]; intros st Hlen; cbn.
  - destruct (pending st); [reflexivity | cbn in Hlen; lia].
  - destruct (nextDue target (pending st)) as [t |] eqn:E; [| exact E].
    apply IH. rewrite fire_pending.
    apply nextDue_In in E as [Hin _].
    pose proof (removeTimer_length t (pending st) Hin). lia.
Qed.

Lemma advanceTo_complete (target : Z) (st : State) :
  now st <= target ->
  Forall (fun t => target < due t) (pending (advanceTo opts target st))
  /\ now (advanceTo opts target st) = target.
Proof.
  intros Hle. unfold advanceTo.
  destruct (Z.ltb_spec target (now st)); [lia |]. cbn. split; [| reflexivity].
  apply nextDue_None, runDue_complete. lia.
Qed.

(** With nothing pending, time passes without effect. *)
Lemma advanceTo_idle (target : Z) (st : State) :
  pending st = [] -> now st <= target ->
  advanceTo opts target st = setNow target st.
Proof.
  intros Hp Hle. unfold advanceTo.
  destruct (Z.ltb_spec target (now st)); [lia |]. now rewrite Hp.
Qed.

End VirtualTime.

(** ** The invariant holds in every reachable state *)

Section Reachability.

Context (opts : Options) (env : Env).

Lemma Inv_arm (cb : TimerCallback) (d : Z) (st : State) :
  Inv env st ->
  Forall (fun t => callback t <> cb) (pending st) ->
  Inv env (match cb with
           | ShowDialogCb =>
               setWarnTimeoutId (Some (nextTimerId st)) (setTimeout cb d st)
           | HandleTimeoutCb =>
               setRedirectTimeoutId (Some (nextTimerId st)) (setTimeout cb d st)
           end).
Proof.
  intros [Ht Hd Hf Hl] Hother.
  rewrite List.Forall_forall in Ht, Hf, Hother.
  assert (Hfresh : nextTimerId st ∉ map tid (pending st)).
  { intros Hin. apply list_elem_of_In, in_map_iff in Hin as (u & E & Hin).
    specialize (Hf u Hin). cbn in Hf. lia. }
  destruct cb; split; cbn; auto.
  all: try (apply List.Forall_forall; intros u Hin;
            apply in_app_iff in Hin as [Hin | [<- | []]];
            [specialize (Ht u Hin); specialize (Hother u Hin);
             unfold tracked in *; cbn; destruct (callback u); congruence
            | unfold tracked; cbn; reflexivity]).
  all: try (rewrite map_app; cbn; apply NoDup_app; repeat split;
            [exact Hd
            | intros x Hx Hx'; apply list_elem_of_singleton in Hx'; subst;
              contradiction
            | apply NoDup_singleton]).
  all: apply List.Forall_forall; intros u Hin;
    apply in_app_iff in Hin as [Hin | [<- | []]];
    [specialize (Hf u Hin); cbn in Hf; lia | cbn; lia].
Qed.

Lemma Inv_reconcileOnActivation (st : State) :
  Inv env st -> pending st = [] ->
  Inv env (reconcileOnActivation opts env st).
Proof.
  intros HI Hp. unfold reconcileOnActivation.
  destruct (getLastResetTime env st) as [[| z] |];
    try (apply Inv_startTimers, HI).
  destruct (truthyNum (Num z)); [| apply Inv_startTimers, HI].
  destruct (warnAt opts <=? now st - z); [apply Inv_showDialog, HI |].
  destruct (now st - z <? Z.min (warnAt opts) (timeoutAt opts));
    [| apply Inv_startTimers, HI].
  set (dw := Z.max 0 (warnAt opts - (now st - z))).
  set (dt := Z.max 0 (timeoutAt opts - (now st - z))).
  assert (H1 : Inv env (setWarnTimeoutId (Some (nextTimerId st))
                          (setTimeout ShowDialogCb dw st))).
  { apply (Inv_arm ShowDialogCb); [exact HI | rewrite Hp; constructor]. }
  destruct (0 <? dw), (0 <? dt); auto.
  - apply (Inv_arm HandleTimeoutCb); [exact H1 |]. cbn. rewrite Hp. cbn.
    repeat constructor. discriminate.
  - apply (Inv_arm HandleTimeoutCb); [exact HI | rewrite Hp; constructor].
Qed.

Lemma Inv_sessionTimeout (t : Z) (ls : gmap string string) (id : positive) :
  Inv env (sessionTimeout opts env (freshSession t ls id)).
Proof.
  unfold sessionTimeout. apply Inv_reconcileOnActivation.
  - apply Inv_updateLastResetTime, Inv_setupStorageListener, Inv_freshSession.
  - unfold updateLastResetTime, setupStorageListener.
    destruct (hasLocalStorage env), (hasWindow env && hasAddEventListener env);
      reflexivity.
Qed.

Lemma Inv_reset (st : State) : Inv env st -> Inv env (reset opts env st).
Proof.
  intros HI. unfold reset.
  apply Inv_startTimers, Inv_updateLastResetTime, Inv_closeDialog, HI.
Qed.

Lemma Inv_handleContinue (st : State) :
  Inv env st -> Inv env (handleContinue opts env st).
Proof.
  intros HI. unfold handleContinue.
  destruct (throws (onContinue opts)); [apply Inv_invoke, HI |].
  apply Inv_startTimers, Inv_updateLastResetTime, Inv_closeDialog,
    Inv_invoke, HI.
Qed.

Lemma Inv_handleStorageChange (event : StorageEvent) (st : State) :
  Inv env st -> Inv env (handleStorageChange opts event st).
Proof.
  intros HI. unfold handleStorageChange.
  destruct (key event), (newValue event); auto.
  destruct (_ && _); auto.
  destruct (jsGe _ _); [apply Inv_showDialog, Inv_closeDialog, HI |].
  destruct (jsLt _ _); [apply Inv_startTimers, Inv_closeDialog, HI | exact HI].
Qed.

Lemma Inv_destroy (st : State) : Inv env st -> Inv env (destroy env st).
Proof.
  intros HI. unfold destroy.
  apply Inv_removeStorageListener, Inv_closeDialog,
    Inv_clearRedirectTimer, Inv_clearWarnTimer, HI.
Qed.

Lemma Inv_step (i : Input) (st : State) :
  Inv env st -> Inv env (step opts env i st).
Proof.
  intros HI. destruct i; cbn.
  - destruct (dt <? 0); [exact HI | now apply Inv_advanceTo].
  - destruct (storageEventListener st);
      [now apply Inv_handleStorageChange | exact HI].
  - destruct (dialog st); [now apply Inv_handleContinue | exact HI].
  - destruct (dialog st); [now apply Inv_handleLogout | exact HI].
  - now apply Inv_showDialog.
  - now apply Inv_closeDialog.
  - now apply Inv_reset.
  - now apply Inv_destroy.
Qed.

Lemma reachable_Inv (st : State) : reachable opts env st -> Inv env st.
Proof.
  induction 1 as [t ls id | i st _ IH].
  - apply Inv_sessionTimeout.
  - apply Inv_step, IH.
Qed.

Lemma filter_at_most_one (kind : Timer -> bool) (h : option positive)
      (l : list Timer) :
  NoDup (map tid l) ->
  (forall t, In t l -> kind t = true -> h = Some (tid t)) ->
  (length (List.filter kind l) <= 1)%nat.
Proof.
  induction l as [| x l IH]; cbn; [lia |].
  intros Hd Hk. apply NoDup_cons in Hd as [Hx Hd].
  destruct (kind x) eqn:Ex; [| apply IH; auto].
  destruct (List.filter kind l) as [| y r] eqn:Ef; [cbn; lia | exfalso].
  assert (Hy : In y (List.filter kind l)) by (rewrite Ef; now left).
  apply filter_In in Hy as [Hy Ky].
  apply Hx, list_elem_of_In, in_map_iff. exists y. split; [| exact Hy].
  pose proof (Hk x (or_introl eq_refl) Ex).
  pose proof (Hk y (or_intror Hy) Ky). congruence.
Qed.

(** At most one timer of each kind is pending under the invariant. *)
Lemma Inv_one_of_each (st : State) :
  Inv env st ->
  (length (warnDue st) <= 1)%nat /\ (length (redirectDue st) <= 1)%nat.
Proof.
  intros [Ht Hd _ _]. unfold warnDue, redirectDue.
  rewrite !length_map. rewrite List.Forall_forall in Ht. split.
  - apply (filter_at_most_one isWarn (warnTimeoutId st)); [exact Hd |].
    intros t Hin Hk.
    specialize (Ht t Hin). unfold tracked, isWarn in *.
    destruct (callback t); [exact Ht | discriminate].
  - apply (filter_at_most_one isRedirect (redirectTimeoutId st)); [exact Hd |].
    intros t Hin Hk.
    specialize (Ht t Hin). unfold tracked, isRedirect in *.
    destruct (callback t); [discriminate | exact Ht].
Qed.

End Reachability.

(** ** Remote notifications: [handleStorageChange] *)

Section RemoteNotifications.

Context (opts : Options) (env : Env).

Lemma parseInt_Num_truthy (v : string) (t : Z) :
  parseInt v = Num t -> truthyStr v = true.
Proof. destruct v; [discriminate | reflexivity]. Qed.

Lemma handleStorageChange_own_key (v : string) (t : Z) (st : State) :
  parseInt v = Num t ->
  handleStorageChange opts (mkStorageEvent (Some storageKey) (Some v)) st
  = if warnAt opts <=? now st - t then showDialog (closeDialog st)
    else if now st - t <? Z.min (warnAt opts) (timeoutAt opts)
         then startTimers opts (closeDialog st)
         else st.
Proof.
  intros Hv. unfold handleStorageChange. cbn [key newValue].
  rewrite String.eqb_refl, (parseInt_Num_truthy v t Hv), Hv. reflexivity.
Qed.

(** C10. A storage event whose key is not the session's key, or whose new
    value is absent or empty, changes nothing: the handler returns the
    state it was given (same timers and handles, same dialog, same store,
    no effect logged), and so does its delivery by the host. *)
Theorem storage_event_ignored (event : StorageEvent) (st : State) :
  key event <> Some storageKey
  \/ newValue event = None
  \/ newValue event = Some ""%string ->
  handleStorageChange opts event st = st
  /\ step opts env (Storage event) st = st.
Proof.
  intros H.
  assert (E : handleStorageChange opts event st = st).
  { unfold handleStorageChange.
    destruct (key event) as [k |], (newValue event) as [v |]; try reflexivity.
    destruct (String.eqb_spec k storageKey) as [-> | Hne]; cbn.
    - destruct H as [H | [H | H]]; [congruence | discriminate |].
      injection H as ->. reflexivity.
    - reflexivity. }
  split; [exact E |]. cbn. rewrite E. now destruct (storageEventListener st).
Qed.

(** C5. A notification for the session's key whose instant lies at least
    [warnAt] in the past, handled while no dialog is showing, creates and
    opens the dialog within the handler: the dialog is up in the resulting
    state, both effects carry the instant of the notification, and no timer
    is queued or cancelled on the way. *)
Theorem remote_overdue_shows_dialog (v : string) (t : Z) (st : State) :
  parseInt v = Num t ->
  warnAt opts <= now st - t ->
  dialog st = false ->
  let st' :=
    handleStorageChange opts (mkStorageEvent (Some storageKey) (Some v)) st in
  dialog st' = true
  /\ trace st' = trace st ++ [(now st, EvDialogCreate); (now st, EvShowModal)]
  /\ now st' = now st
  /\ pending st' = pending st.
Proof.
  intros Hv Hle Hd. cbn zeta. rewrite (handleStorageChange_own_key v t st Hv).
  destruct (Z.leb_spec (warnAt opts) (now st - t)); [| lia].
  unfold showDialog, closeDialog. rewrite Hd. cbn. rewrite Hd. cbn.
  rewrite <- app_assoc. auto.
Qed.

(** C2, as the code has it.  A notification for the session's key whose
    instant lies less than [min warnAt timeoutAt] (and more than 0) in the
    past closes the dialog and restarts the countdown in full: the warn
    callback is due [warnAt] and the timeout callback [timeoutAt] after the
    notification is handled; the time already elapsed is not deducted. *)
Theorem remote_recent_restarts_in_full (v : string) (t : Z) (st : State) :
  reachable opts env st ->
  parseInt v = Num t ->
  0 < now st - t < Z.min (warnAt opts) (timeoutAt opts) ->
  let st' :=
    handleStorageChange opts (mkStorageEvent (Some storageKey) (Some v)) st in
  pending st' = freshTimers opts (now st) (nextTimerId st)
  /\ warnDue st' = [now st + warnAt opts]
  /\ redirectDue st' = [now st + timeoutAt opts]
  /\ dialog st' = false
  /\ now st' = now st.
Proof.
  intros Hr Hv Hel. cbn zeta. rewrite (handleStorageChange_own_key v t st Hv).
  destruct (Z.leb_spec (warnAt opts) (now st - t)); [lia |].
  destruct (Z.ltb_spec (now st - t) (Z.min (warnAt opts) (timeoutAt opts)));
    [| lia].
  assert (HI : Inv env (closeDialog st))
    by apply Inv_closeDialog, (reachable_Inv opts env st Hr).
  pose proof (startTimers_pending opts env _ HI) as Hp.
  destruct (startTimers_fields opts (closeDialog st)) as (Hn & Hd & _).
  assert (Hc : now (closeDialog st) = now st
               /\ nextTimerId (closeDialog st) = nextTimerId st
               /\ dialog (closeDialog st) = false).
  { unfold closeDialog. destruct (dialog st) eqn:E; cbn; auto. }
  destruct Hc as (Hcn & Hci & Hcd).
  rewrite Hcn, Hci in Hp. unfold warnDue, redirectDue. rewrite Hp, Hn, Hd.
  cbn. rewrite !Z.max_r by lia. auto.
Qed.

End RemoteNotifications.

Lemma reachable_exActivated : reachable exOpts exEnv exActivated.
Proof. apply reach_activation. Qed.

Lemma reachable_exCounting : reachable exOpts exEnv exCounting.
Proof. apply reach_step, reach_activation. Qed.

Lemma reachable_exWarned : reachable exOpts exEnv exWarned.
Proof. apply reach_step, reach_activation. Qed.

Lemma storage_event_ignored_witness :
  let event := mkStorageEvent (Some "different-key"%string)
                              (Some "1150"%string) in
  key event <> Some storageKey
  /\ handleStorageChange exOpts event exWarned = exWarned
  /\ step exOpts exEnv (Storage event) exWarned = exWarned.
Proof.
  cbn zeta. split; [discriminate |].
  apply storage_event_ignored. left. discriminate.
Defined.

Lemma remote_overdue_shows_dialog_witness :
  let st := exActivated in
  let st' := handleStorageChange exOpts (resetEvent 850) st in
  warnAt exOpts <= now st - 850
  /\ dialog st = false
  /\ dialog st' = true
  /\ trace st' = trace st ++ [(now st, EvDialogCreate); (now st, EvShowModal)]
  /\ now st' = now st
  /\ pending st' = pending st.
Proof.
  cbn zeta. split; [vm_compute; discriminate |]. split; [reflexivity |].
  apply (remote_overdue_shows_dialog exOpts "850" 850 exActivated).
  - reflexivity.
  - vm_compute. discriminate.
  - reflexivity.
Defined.

Lemma remote_recent_restarts_in_full_witness :
  let st := exCounting in
  let st' := handleStorageChange exOpts (resetEvent 980) st in
  0 < now st - 980 < Z.min (warnAt exOpts) (timeoutAt exOpts)
  /\ pending st' = freshTimers exOpts (now st) (nextTimerId st)
  /\ warnDue st' = [now st + warnAt exOpts]
  /\ redirectDue st' = [now st + timeoutAt exOpts]
  /\ dialog st' = false
  /\ now st' = now st.
Proof.
  cbn zeta. split; [vm_compute; split; reflexivity |].
  apply (remote_recent_restarts_in_full exOpts exEnv "980" 980 exCounting).
  - exact reachable_exCounting.
  - reflexivity.
  - vm_compute. split; reflexivity.
Defined.

(** C2 as stated fails: 30 ms into a 100/200 countdown, a notification
    whose instant is 50 ms old leaves the warn callback due a full 100 ms
    later (at 1130), not 100 - 50 ms later (at 1080). *)
Lemma remote_recent_not_adjusted :
  let st := exCounting in
  let st' := handleStorageChange exOpts (resetEvent 980) st in
  let elapsed := now st - 980 in
  0 < elapsed < Z.min (warnAt exOpts) (timeoutAt exOpts)
  /\ warnDue st' = [now st + warnAt exOpts]
  /\ warnDue st' <> [now st + (warnAt exOpts - elapsed)].
Proof.
  cbn zeta. split; [vm_compute; split; reflexivity |].
  split; [vm_compute; reflexivity | vm_compute; discriminate].
Qed.

(** ** Activation *)

Section Activation.

Context (opts : Options) (env : Env).

Lemma getLastResetTime_stored (st : State) (s : string) :
  hasLocalStorage env = true ->
  localStorage st !! storageKey = Some s ->
  getLastResetTime env st
  = if truthyStr s then Some (parseInt s) else None.
Proof. intros He Hs. unfold getLastResetTime. now rewrite He, Hs. Qed.

Lemma getLastResetTime_absent (st : State) :
  localStorage st !! storageKey = None -> getLastResetTime env st = None.
Proof.
  intros Hs. unfold getLastResetTime. rewrite Hs.
  now destruct (hasLocalStorage env).
Qed.

(** Whatever [getLastResetTime] returns that is not a truthy number sends
    the reconciliation to [startTimers]. *)
Lemma reconcile_falsy (st : State) :
  match getLastResetTime env st with
  | Some n => truthyNum n = false
  | None => True
  end ->
  reconcileOnActivation opts env st = startTimers opts st.
Proof.
  unfold reconcileOnActivation.
  destruct (getLastResetTime env st) as [[| z] |]; try reflexivity.
  now intros ->.
Qed.

(** The reconciliation block on a truthy instant [z], spelled out. *)
Lemma reconcile_truthy (st : State) (z : Z) :
  getLastResetTime env st = Some (Num z) -> z <> 0 ->
  reconcileOnActivation opts env st
  = let elapsed := now st - z in
    if warnAt opts <=? elapsed then showDialog st
    else if elapsed <? Z.min (warnAt opts) (timeoutAt opts) then
      let st1 :=
        if 0 <? Z.max 0 (warnAt opts - elapsed) then
          setWarnTimeoutId (Some (nextTimerId st))
            (setTimeout ShowDialogCb (Z.max 0 (warnAt opts - elapsed)) st)
        else st in
      if 0 <? Z.max 0 (timeoutAt opts - elapsed) then
        setRedirectTimeoutId (Some (nextTimerId st1))
          (setTimeout HandleTimeoutCb (Z.max 0 (timeoutAt opts - elapsed)) st1)
      else st1
    else startTimers opts st.
Proof.
  intros Hg Hz. unfold reconcileOnActivation. rewrite Hg. cbn [truthyNum].
  destruct (Z.eqb_spec z 0); [contradiction | reflexivity].
Qed.

(** Read in isolation, the block deducts the time elapsed since the
    instant it is handed. *)
Lemma reconcile_deducts_elapsed (st : State) (z : Z) :
  getLastResetTime env st = Some (Num z) -> z <> 0 ->
  pending st = [] ->
  0 <= now st - z < Z.min (warnAt opts) (timeoutAt opts) ->
  pending (reconcileOnActivation opts env st)
  = [ mkTimer (nextTimerId st) (now st + (warnAt opts - (now st - z)))
              ShowDialogCb;
      mkTimer (Pos.succ (nextTimerId st))
              (now st + (timeoutAt opts - (now st - z))) HandleTimeoutCb ].
Proof.
  intros Hg Hz Hp He. rewrite (reconcile_truthy st z Hg Hz). cbn zeta.
  destruct (Z.leb_spec (warnAt opts) (now st - z)); [lia |].
  destruct (Z.ltb_spec (now st - z) (Z.min (warnAt opts) (timeoutAt opts)));
    [| lia].
  destruct (Z.ltb_spec 0 (Z.max 0 (warnAt opts - (now st - z)))); [| lia].
  destruct (Z.ltb_spec 0 (Z.max 0 (timeoutAt opts - (now st - z)))); [| lia].
  cbn. rewrite Hp. cbn. repeat f_equal; lia.
Qed.

(** The state in which the reconciliation block runs: the handler is
    subscribed and, where there is a store, the record has just been
    overwritten with the activation instant. *)
Lemma published_fields (t : Z) (ls : gmap string string) (id : positive) :
  let st := updateLastResetTime env
              (setupStorageListener env (freshSession t ls id)) in
  now st = t /\ pending st = [] /\ nextTimerId st = id
  /\ warnTimeoutId st = None /\ redirectTimeoutId st = None
  /\ dialog st = false
  /\ localStorage st
     = if hasLocalStorage env then <[storageKey := toString t]> ls else ls.
Proof.
  unfold updateLastResetTime, setupStorageListener.
  destruct (hasLocalStorage env), (hasWindow env && hasAddEventListener env);
    cbn; auto 10.
Qed.

Lemma published_read (t : Z) (ls : gmap string string) (id : positive) :
  hasLocalStorage env = true ->
  getLastResetTime env
    (updateLastResetTime env (setupStorageListener env (freshSession t ls id)))
  = Some (Num t).
Proof.
  intros He.
  destruct (published_fields t ls id) as (_ & _ & _ & _ & _ & _ & Hs).
  rewrite He in Hs.
  erewrite getLastResetTime_stored; [| exact He | rewrite Hs; apply lookup_insert_eq].
  now rewrite toString_truthy, parseInt_toString.
Qed.

(** With a store, the activation does not depend on what the record held:
    only the rest of the store survives the overwrite. *)
Lemma sessionTimeout_record_overwritten
      (t : Z) (ls ls' : gmap string string) (id : positive) :
  hasLocalStorage env = true ->
  <[storageKey := toString t]> ls = <[storageKey := toString t]> ls' ->
  sessionTimeout opts env (freshSession t ls id)
  = sessionTimeout opts env (freshSession t ls' id).
Proof.
  intros He Hs. unfold sessionTimeout. f_equal.
  unfold updateLastResetTime, setupStorageListener. rewrite He.
  destruct (hasWindow env && hasAddEventListener env); cbn; now rewrite Hs.
Qed.

(** With a store and a positive [warnAt], every activation queues the full
    countdown, counted from the activation instant. *)
Lemma sessionTimeout_full_countdown
      (t : Z) (ls : gmap string string) (id : positive) :
  hasLocalStorage env = true ->
  0 < warnAt opts ->
  pending (sessionTimeout opts env (freshSession t ls id))
  = freshTimers opts t id.
Proof.
  intros He Hw. unfold sessionTimeout.
  pose proof (published_read t ls id He) as Hg.
  destruct (published_fields t ls id) as (Hn & Hp & Hi & Hwi & Hri & _).
  set (st := updateLastResetTime env _) in *.
  assert (Hfresh : pending (startTimers opts st) = freshTimers opts t id).
  { rewrite (startTimers_pending opts env), Hn, Hi; [reflexivity |].
    apply Inv_updateLastResetTime, Inv_setupStorageListener, Inv_freshSession. }
  destruct (Z.eq_dec t 0) as [Ht | Ht].
  - rewrite reconcile_falsy; [exact Hfresh |]. rewrite Hg. cbn. now rewrite Ht.
  - destruct (Z.lt_ge_cases 0 (timeoutAt opts)) as [Hto | Hto].
    + rewrite (reconcile_deducts_elapsed st t Hg Ht Hp) by (rewrite Hn; lia).
      rewrite Hn, Hi. unfold freshTimers. repeat f_equal; lia.
    + rewrite (reconcile_truthy st t Hg Ht). cbn zeta. rewrite Hn.
      destruct (Z.leb_spec (warnAt opts) (t - t)); [lia |].
      destruct (Z.ltb_spec (t - t) (Z.min (warnAt opts) (timeoutAt opts)));
        [lia | exact Hfresh].
Qed.

End Activation.

Section ActivationClaims.

Context (opts : Options) (env : Env).

(** Whatever instant the record held, an activation in a tab with a store
    reads back the instant it has just written: the warn callback is due a
    full [warnAt] after the activation. *)
Lemma activation_ignores_persisted_instant
      (t0 t : Z) (ls : gmap string string) (id : positive) :
  hasLocalStorage env = true ->
  ls !! storageKey = Some (toString t) ->
  0 < t0 - t < warnAt opts ->
  let st := sessionTimeout opts env (freshSession t0 ls id) in
  localStorage st !! storageKey = Some (toString t0)
  /\ warnDue st = [t0 + warnAt opts]
  /\ warnDue st <> [t + warnAt opts].
Proof.
  intros He Hs Hel. cbn zeta.
  assert (Hw : warnDue (sessionTimeout opts env (freshSession t0 ls id))
               = [t0 + warnAt opts]).
  { unfold warnDue. rewrite sessionTimeout_full_countdown by (auto; lia).
    cbn. now rewrite Z.max_r by lia. }
  split; [| split; [exact Hw | rewrite Hw; intros [= E]; lia]].
  unfold sessionTimeout.
  destruct (published_fields env t0 ls id) as (_ & Hp & _ & _ & _ & _ & Hst).
  set (st := updateLastResetTime env _) in *.
  assert (Hl : forall s, localStorage (startTimers opts s) = localStorage s)
    by (intros s; apply (startTimers_fields opts s)).
  assert (E : localStorage (reconcileOnActivation opts env st) = localStorage st).
  { unfold reconcileOnActivation.
    destruct (getLastResetTime env st) as [[| z] |]; auto.
    destruct (truthyNum (Num z)); auto.
    destruct (warnAt opts <=? now st - z);
      [unfold showDialog; now destruct (dialog st) |].
    destruct (now st - z <? Z.min (warnAt opts) (timeoutAt opts)); auto.
    destruct (0 <? Z.max 0 (warnAt opts - (now st - z))),
             (0 <? Z.max 0 (timeoutAt opts - (now st - z))); reflexivity. }
  rewrite E, Hst, He. apply lookup_insert_eq.
Qed.

End ActivationClaims.

(** C1. The activation does not count from the persisted instant.  With a
    record written 50 ms before the activation and [warnAt = 100], the
    record is first overwritten with the activation instant (1000) and then
    read back, so the warn callback is due at 1100, a full [warnAt] after
    the activation, and not at 1050, [warnAt] after the persisted instant. *)
Theorem activation_overwrites_persisted_instant :
  let st0 := freshSession 1000 exPersisted 1 in
  let st := sessionTimeout exOpts exEnv st0 in
  getLastResetTime exEnv st0 = Some (Num 950)
  /\ localStorage st !! storageKey = Some (toString 1000)
  /\ warnDue st = [1000 + warnAt exOpts]
  /\ warnDue st <> [950 + warnAt exOpts]
  /\ warnDue (reconcileOnActivation exOpts exEnv st0) = [950 + warnAt exOpts].
Proof.
  cbn zeta. split; [vm_compute; reflexivity |].
  assert (H : localStorage (sessionTimeout exOpts exEnv
                              (freshSession 1000 exPersisted 1))
              !! storageKey = Some (toString 1000)
              /\ warnDue (sessionTimeout exOpts exEnv
                            (freshSession 1000 exPersisted 1))
                 = [1000 + warnAt exOpts]
              /\ warnDue (sessionTimeout exOpts exEnv
                            (freshSession 1000 exPersisted 1))
                 <> [950 + warnAt exOpts]).
  { apply (activation_ignores_persisted_instant exOpts exEnv 1000 950).
    - reflexivity.
    - apply lookup_singleton_eq.
    - vm_compute. split; reflexivity. }
  destruct H as (H1 & H2 & H3).
  split; [exact H1 | split; [exact H2 | split; [exact H3 |]]].
  vm_compute. reflexivity.
Qed.


(** ** One countdown cycle *)

Section Cycle.

Context (opts : Options) (env : Env).

Lemma nextDue_one (target : Z) (r : Timer) :
  nextDue target [r] = if due r <=? target then Some r else None.
Proof. unfold nextDue. cbn. now destruct (due r <=? target). Qed.

Lemma nextDue_two (target : Z) (w r : Timer) :
  due w <= due r ->
  nextDue target [w; r] = if due w <=? target then Some w else None.
Proof.
  intros Hle. unfold nextDue. cbn.
  destruct (Z.leb_spec (due w) target), (Z.leb_spec (due r) target); cbn;
    try reflexivity; try lia.
  destruct (Z.ltb_spec (due r) (due w)); [lia | reflexivity].
Qed.

Lemma showDialog_trace (s : State) :
  trace (showDialog s) = trace s ++ shown (dialog s) (now s)
  /\ dialog (showDialog s) = true.
Proof.
  unfold showDialog, shown. destruct (dialog s) eqn:E; cbn; rewrite ?E;
    rewrite <- ?app_assoc; auto.
Qed.

Lemma closeDialog_trace (s : State) :
  trace (closeDialog s) = trace s ++ closed (dialog s) (now s)
  /\ dialog (closeDialog s) = false.
Proof.
  unfold closeDialog, closed. destruct (dialog s) eqn:E; cbn;
    rewrite ?app_nil_r; auto.
Qed.

Lemma invoke_trace (cb : Callback) (e : Effect) (s : State) :
  trace (invoke cb e s) = trace s ++ invoked cb e (now s).
Proof. destruct cb; cbn; now rewrite ?app_nil_r. Qed.

Lemma handleTimeout_trace (s : State) :
  trace (handleTimeout opts s)
  = trace s ++ closed (dialog s) (now s)
            ++ invoked (onTimeout opts) EvOnTimeout (now s)
  /\ dialog (handleTimeout opts s) = false
  /\ pending (handleTimeout opts s) = pending s.
Proof.
  unfold handleTimeout, invoke, closeDialog, closed, invoked.
  destruct (dialog s) eqn:E, (onTimeout opts); cbn;
    rewrite ?app_nil_r, <- ?app_assoc; auto.
Qed.

Lemma fire_warn (w : Timer) (s : State) :
  callback w = ShowDialogCb ->
  trace (fire opts w s) = trace s ++ shown (dialog s) (Z.max (now s) (due w))
  /\ dialog (fire opts w s) = true.
Proof.
  intros Hc. unfold fire. rewrite Hc. apply showDialog_trace.
Qed.

Lemma fire_redirect (r : Timer) (s : State) :
  callback r = HandleTimeoutCb ->
  trace (fire opts r s)
  = trace s ++ closed (dialog s) (Z.max (now s) (due r))
            ++ invoked (onTimeout opts) EvOnTimeout (Z.max (now s) (due r))
  /\ dialog (fire opts r s) = false.
Proof.
  intros Hc. unfold fire. rewrite Hc.
  destruct (handleTimeout_trace
              (setNow (Z.max (now s) (due r))
                 (setPending (removeTimer (tid r) (pending s)) s)))
    as (Ht & Hd & _).
  split; [exact Ht | exact Hd].
Qed.

(** Three regimes of a queue that holds a warn timer and a later (or
    simultaneous) timeout timer. *)
Lemma advanceTo_countdown (w r : Timer) (target : Z) (s : State) :
  pending s = [w; r] -> tid w <> tid r -> due w <= due r ->
  now s <= target ->
  advanceTo opts target s
  = setNow target
      (if due r <=? target then fire opts r (fire opts w s)
       else if due w <=? target then fire opts w s
       else s).
Proof.
  intros Hp Hid Hle Hnow. unfold advanceTo.
  destruct (Z.ltb_spec target (now s)); [lia |]. f_equal.
  rewrite Hp. cbn [length runDue]. rewrite Hp, (nextDue_two target w r Hle).
  assert (Hpw : pending (fire opts w s) = [r]).
  { rewrite fire_pending, Hp. unfold removeTimer. cbn.
    rewrite Pos.eqb_refl. cbn.
    destruct (Pos.eqb_spec (tid r) (tid w)); [congruence | reflexivity]. }
  destruct (Z.leb_spec (due w) target).
  - rewrite Hpw, nextDue_one.
    destruct (Z.leb_spec (due r) target); reflexivity.
  - destruct (Z.leb_spec (due r) target); [lia | reflexivity].
Qed.

Lemma setNow_trace (t : Z) (s : State) : trace (setNow t s) = trace s.
Proof. reflexivity. Qed.

Lemma setNow_dialog (t : Z) (s : State) : dialog (setNow t s) = dialog s.
Proof. reflexivity. Qed.

Lemma setNow_pending (t : Z) (s : State) : pending (setNow t s) = pending s.
Proof. reflexivity. Qed.

(** C3. After [startTimers] with [0 <= warnAt <= timeoutAt], as virtual
    time runs: nothing happens before [warnAt] has elapsed; from exactly
    [warnAt] on the dialog has been shown, once, stamped with that instant,
    and the timeout timer is still pending; from exactly [timeoutAt] on
    the dialog has been closed and [onTimeout] invoked, once, stamped with
    that instant, and nothing is pending any more.  [handleTimeout] closes
    the dialog (when there is one) and then invokes [onTimeout], whatever
    the dialog's state. *)
Theorem countdown_fires_once_each (st : State) :
  reachable opts env st ->
  0 <= warnAt opts <= timeoutAt opts ->
  let st1 := startTimers opts st in
  let tw := now st + warnAt opts in
  let tt := now st + timeoutAt opts in
  (forall t, now st <= t < tw ->
     trace (advanceTo opts t st1) = trace st1
     /\ dialog (advanceTo opts t st1) = dialog st
     /\ warnDue (advanceTo opts t st1) = [tw]
     /\ redirectDue (advanceTo opts t st1) = [tt])
  /\ (forall t, tw <= t < tt ->
        trace (advanceTo opts t st1) = trace st1 ++ shown (dialog st) tw
        /\ dialog (advanceTo opts t st1) = true
        /\ warnDue (advanceTo opts t st1) = []
        /\ redirectDue (advanceTo opts t st1) = [tt])
  /\ (forall t, tt <= t ->
        trace (advanceTo opts t st1)
        = trace st1 ++ shown (dialog st) tw
                    ++ [(tt, EvDialogClose)]
                    ++ invoked (onTimeout opts) EvOnTimeout tt
        /\ dialog (advanceTo opts t st1) = false
        /\ pending (advanceTo opts t st1) = [])
  /\ (forall s,
        trace (handleTimeout opts s)
        = trace s ++ closed (dialog s) (now s)
                  ++ invoked (onTimeout opts) EvOnTimeout (now s)
        /\ dialog (handleTimeout opts s) = false
        /\ pending (handleTimeout opts s) = pending s).
Proof.
  intros Hr Hd. cbn zeta.
  pose proof (reachable_Inv opts env st Hr) as HI.
  pose proof (startTimers_pending opts env st HI) as Hp.
  destruct (startTimers_fields opts st) as (Hn & Hdl & _).
  unfold freshTimers in Hp. rewrite !Z.max_r in Hp by lia.
  set (w := mkTimer (nextTimerId st) (now st + warnAt opts) ShowDialogCb) in *.
  set (r := mkTimer (Pos.succ (nextTimerId st)) (now st + timeoutAt opts)
                    HandleTimeoutCb) in *.
  remember (startTimers opts st) as st1 eqn:Est1. clear Est1.
  assert (Hadv : forall t, now st <= t ->
            advanceTo opts t st1
            = setNow t (if due r <=? t then fire opts r (fire opts w st1)
                        else if due w <=? t then fire opts w st1 else st1)).
  { intros t Ht. apply advanceTo_countdown.
    - exact Hp.
    - unfold w, r. cbn. lia.
    - unfold w, r. cbn. lia.
    - rewrite Hn. exact Ht. }
  assert (Hpw : pending (fire opts w st1) = [r]).
  { rewrite fire_pending, Hp. unfold removeTimer. cbn.
    rewrite Pos.eqb_refl. cbn.
    destruct (Pos.eqb_spec (Pos.succ (nextTimerId st)) (nextTimerId st));
      [lia | reflexivity]. }
  destruct (fire_warn w st1 eq_refl) as [Htw Hdw].
  destruct (fire_redirect r (fire opts w st1) eq_refl) as [Htr Hdr].
  destruct (fire_fields opts w st1) as (_ & _ & _ & _ & _ & Hnw).
  rewrite Hn, Hdl in Htw. rewrite Hnw, Hn, Hdw, Htw in Htr.
  change (due w) with (now st + warnAt opts) in Htw, Htr.
  change (due r) with (now st + timeoutAt opts) in Htr.
  rewrite !(Z.max_r (now st)) in Htw by lia.
  rewrite (Z.max_r (now st)), Z.max_r in Htr by lia.
  assert (Hlt : forall t, t < now st + warnAt opts -> now st <= t ->
            advanceTo opts t st1 = setNow t st1).
  { intros t H1 H2. rewrite Hadv by lia. unfold w, r. cbn [due].
    destruct (Z.leb_spec (now st + timeoutAt opts) t); [lia |].
    destruct (Z.leb_spec (now st + warnAt opts) t); [lia | reflexivity]. }
  assert (Hmid : forall t, now st + warnAt opts <= t < now st + timeoutAt opts ->
            advanceTo opts t st1 = setNow t (fire opts w st1)).
  { intros t H1. rewrite Hadv by lia. unfold w at 2, r at 1. cbn [due].
    destruct (Z.leb_spec (now st + timeoutAt opts) t); [lia |].
    destruct (Z.leb_spec (now st + warnAt opts) t); [reflexivity | lia]. }
  assert (Hend : forall t, now st + timeoutAt opts <= t ->
            advanceTo opts t st1 = setNow t (fire opts r (fire opts w st1))).
  { intros t H1. rewrite Hadv by lia. unfold r at 1. cbn [due].
    destruct (Z.leb_spec (now st + timeoutAt opts) t); [reflexivity | lia]. }
  clear Hadv.
  split; [| split; [| split]].
  - intros t [H1 H2]. rewrite (Hlt t H2 H1).
    rewrite setNow_trace, setNow_dialog.
    unfold warnDue, redirectDue. rewrite setNow_pending, Hp.
    repeat split; auto.
  - intros t H. rewrite (Hmid t H).
    rewrite setNow_trace, setNow_dialog.
    unfold warnDue, redirectDue. rewrite setNow_pending, Hpw.
    repeat split; auto.
  - intros t H. rewrite (Hend t H).
    rewrite setNow_trace, setNow_dialog, setNow_pending.
    split; [| split; [exact Hdr |]].
    + rewrite Htr. unfold closed. now rewrite <- !app_assoc.
    + rewrite fire_pending, Hpw. unfold removeTimer, r. cbn.
      now rewrite Pos.eqb_refl.
  - intros s. apply handleTimeout_trace.
Qed.

End Cycle.

Lemma countdown_fires_once_each_witness :
  let st := exActivated in
  let st1 := startTimers exOpts st in
  0 <= warnAt exOpts <= timeoutAt exOpts
  /\ trace (advanceTo exOpts (now st + 50) st1) = trace st1
  /\ trace (advanceTo exOpts (now st + 150) st1)
     = trace st1 ++ shown (dialog st) (now st + warnAt exOpts)
  /\ dialog (advanceTo exOpts (now st + 150) st1) = true
  /\ redirectDue (advanceTo exOpts (now st + 150) st1)
     = [now st + timeoutAt exOpts]
  /\ trace (advanceTo exOpts (now st + 250) st1)
     = trace st1 ++ shown (dialog st) (now st + warnAt exOpts)
                 ++ [(now st + timeoutAt exOpts, EvDialogClose)]
                 ++ invoked (onTimeout exOpts) EvOnTimeout
                            (now st + timeoutAt exOpts)
  /\ dialog (advanceTo exOpts (now st + 250) st1) = false.
Proof.
  cbn zeta.
  assert (Hd : 0 <= warnAt exOpts <= timeoutAt exOpts)
    by (vm_compute; split; discriminate).
  destruct (countdown_fires_once_each exOpts exEnv exActivated
              reachable_exActivated Hd) as (H1 & H2 & H3 & _).
  split; [exact Hd |].
  split; [apply H1; vm_compute; split; [discriminate | reflexivity] |].
  assert (B2 : now exActivated + warnAt exOpts <= now exActivated + 150
               < now exActivated + timeoutAt exOpts)
    by (vm_compute; split; [discriminate | reflexivity]).
  assert (B3 : now exActivated + timeoutAt exOpts <= now exActivated + 250)
    by (vm_compute; discriminate).
  destruct (H2 _ B2) as (T2 & D2 & _ & R2).
  destruct (H3 _ B3) as (T3 & D3 & _).
  auto 10.
Defined.

(** ** A pending timer fires at its due instant *)

Section Firing.

Context (opts : Options) (env : Env).

Lemma fire_trace_grows (t : Timer) (s : State) :
  exists delta, trace (fire opts t s) = trace s ++ delta.
Proof.
  destruct (callback t) eqn:Ec.
  - eexists. apply (fire_warn opts t s Ec).
  - eexists. apply (fire_redirect opts t s Ec).
Qed.

Lemma runDue_trace_grows (fuel : nat) (target : Z) (s : State) :
  exists delta, trace (runDue opts fuel target s) = trace s ++ delta.
Proof.
  revert s. induction fuel as [| fuel IH]; intros s; cbn.
  - exists []. now rewrite app_nil_r.
  - destruct (nextDue target (pending s)) as [t |].
    + destruct (IH (fire opts t s)) as [d1 E1].
      destruct (fire_trace_grows t s) as [d0 E0].
      exists (d0 ++ d1). now rewrite E1, E0, app_assoc.
    + exists []. now rewrite app_nil_r.
Qed.

Lemma same_handle_same_timer (l : list Timer) (a b : Timer) :
  NoDup (map tid l) -> In a l -> In b l -> tid a = tid b -> a = b.
Proof.
  induction l as [| x l IH]; cbn; [easy |].
  intros Hd Ha Hb E. apply NoDup_cons in Hd as [Hx Hd].
  destruct Ha as [-> | Ha], Hb as [-> | Hb]; auto.
  - exfalso. apply Hx, list_elem_of_In, in_map_iff. exists b. auto.
  - exfalso. apply Hx, list_elem_of_In, in_map_iff. exists a. auto.
Qed.

(** Once virtual time has reached the due instant of a pending timeout
    timer, [onTimeout] has been invoked at exactly that instant. *)
Lemma runDue_fires_timeout (fuel : nat) (target : Z) (s : State) (r : Timer) :
  Inv env s ->
  In r (pending s) -> callback r = HandleTimeoutCb ->
  now s <= due r <= target ->
  (length (pending s) <= fuel)%nat ->
  incl (invoked (onTimeout opts) EvOnTimeout (due r))
       (trace (runDue opts fuel target s)).
Proof.
  revert s. induction fuel as [| fuel IH]; intros s HI Hin Hc Hd Hlen.
  - destruct (pending s); [destruct Hin | cbn in Hlen; lia].
  - cbn. destruct (nextDue target (pending s)) as [e |] eqn:E.
    + destruct (Pos.eq_dec (tid e) (tid r)) as [Eid | Nid].
      * assert (e = r) as ->.
        { apply (same_handle_same_timer (pending s)); auto.
          - apply (inv_nodup _ _ HI).
          - now apply nextDue_In in E. }
        destruct (fire_redirect opts r s Hc) as [Ht _].
        destruct (runDue_trace_grows fuel target (fire opts r s)) as [d Ed].
        rewrite Ed, Ht, Z.max_r by lia.
        intros x Hx. apply in_app_iff. left. apply in_app_iff. right.
        apply in_app_iff. now right.
      * apply IH.
        -- now apply Inv_fire.
        -- rewrite fire_pending. apply removeTimer_In. auto.
        -- exact Hc.
        -- destruct (fire_fields opts e s) as (_ & _ & _ & _ & _ & Hn).
           rewrite Hn.
           pose proof (nextDue_min target (pending s) e r E Hin). lia.
        -- rewrite fire_pending. apply nextDue_In in E as [He _].
           pose proof (removeTimer_length e (pending s) He). lia.
    + apply nextDue_None in E. rewrite List.Forall_forall in E.
      specialize (E r Hin). lia.
Qed.

Lemma advanceTo_fires_timeout (target : Z) (s : State) (r : Timer) :
  Inv env s ->
  In r (pending s) -> callback r = HandleTimeoutCb ->
  now s <= due r <= target ->
  incl (invoked (onTimeout opts) EvOnTimeout (due r))
       (trace (advanceTo opts target s)).
Proof.
  intros HI Hin Hc Hd. unfold advanceTo.
  destruct (Z.ltb_spec target (now s)); [lia |]. rewrite setNow_trace.
  now apply runDue_fires_timeout.
Qed.

End Firing.

(** ** The dialog's two buttons and the timeout handler *)

Section Decisions.

Context (opts : Options) (env : Env).

Lemma updateLastResetTime_trace (s : State) :
  trace (updateLastResetTime env s) = trace s ++ published env (now s)
  /\ now (updateLastResetTime env s) = now s
  /\ dialog (updateLastResetTime env s) = dialog s
  /\ nextTimerId (updateLastResetTime env s) = nextTimerId s
  /\ warnTimeoutId (updateLastResetTime env s) = warnTimeoutId s
  /\ redirectTimeoutId (updateLastResetTime env s) = redirectTimeoutId s.
Proof.
  unfold updateLastResetTime, published.
  destruct (hasLocalStorage env); cbn; rewrite ?app_nil_r; auto 10.
Qed.

Lemma closeDialog_fields (s : State) :
  now (closeDialog s) = now s
  /\ pending (closeDialog s) = pending s
  /\ nextTimerId (closeDialog s) = nextTimerId s
  /\ warnTimeoutId (closeDialog s) = warnTimeoutId s
  /\ redirectTimeoutId (closeDialog s) = redirectTimeoutId s.
Proof. unfold closeDialog. destruct (dialog s); cbn; auto 10. Qed.

Lemma startTimers_trace_armed (s : State) :
  trace (startTimers opts s)
  = trace s ++ cleared (warnTimeoutId s) (now s)
            ++ cleared (redirectTimeoutId s) (now s)
            ++ armed opts (now s) (nextTimerId s).
Proof. apply startTimers_trace. Qed.

(** [reset], from the state it finds: close, publish, clear, arm. *)
Lemma reset_trace (s : State) :
  trace (reset opts env s)
  = trace s ++ closed (dialog s) (now s) ++ restarted opts env s
  /\ dialog (reset opts env s) = false
  /\ now (reset opts env s) = now s.
Proof.
  unfold reset, restarted.
  destruct (closeDialog_trace s) as [Ct Cd].
  destruct (closeDialog_fields s) as (Cn & _ & Ci & Cw & Cr).
  destruct (updateLastResetTime_trace (closeDialog s))
    as (Ut & Un & Ud & Ui & Uw & Ur).
  destruct (startTimers_fields opts (updateLastResetTime env (closeDialog s)))
    as (Sn & Sd & _).
  rewrite startTimers_trace_armed, Ut, Ct, Un, Ui, Uw, Ur, Cn, Ci, Cw, Cr.
  rewrite Sn, Sd, Un, Ud, Cn, Cd. rewrite <- !app_assoc. auto.
Qed.

Lemma invoke_fields (cb : Callback) (e : Effect) (s : State) :
  now (invoke cb e s) = now s
  /\ dialog (invoke cb e s) = dialog s
  /\ pending (invoke cb e s) = pending s
  /\ nextTimerId (invoke cb e s) = nextTimerId s
  /\ warnTimeoutId (invoke cb e s) = warnTimeoutId s
  /\ redirectTimeoutId (invoke cb e s) = redirectTimeoutId s.
Proof. destruct cb; cbn; auto 10. Qed.

(** The effects of [handleContinue], in order. *)
Lemma handleContinue_trace (s : State) :
  trace (handleContinue opts env s)
  = trace s
    ++ invoked (onContinue opts) EvOnContinue (now s)
    ++ (if throws (onContinue opts) then []
        else closed (dialog s) (now s) ++ restarted opts env s).
Proof.
  unfold handleContinue.
  destruct (invoke_fields (onContinue opts) EvOnContinue s)
    as (In_ & Id & _ & Ii & Iw & Ir).
  destruct (throws (onContinue opts)).
  - now rewrite invoke_trace, app_nil_r.
  - fold (reset opts env (invoke (onContinue opts) EvOnContinue s)).
    destruct (reset_trace (invoke (onContinue opts) EvOnContinue s))
      as (Rt & _).
    rewrite Rt, invoke_trace. unfold restarted.
    rewrite In_, Id, Ii, Iw, Ir, <- !app_assoc. reflexivity.
Qed.

Lemma handleLogout_trace (s : State) :
  trace (handleLogout opts s)
  = trace s
    ++ invoked (onLogout opts) EvOnLogout (now s)
    ++ (if throws (onLogout opts) then [] else closed (dialog s) (now s)).
Proof.
  unfold handleLogout.
  destruct (invoke_fields (onLogout opts) EvOnLogout s) as (In_ & Id & _).
  destruct (throws (onLogout opts)).
  - now rewrite invoke_trace, app_nil_r.
  - destruct (closeDialog_trace (invoke (onLogout opts) EvOnLogout s))
      as [Ct _].
    now rewrite Ct, invoke_trace, In_, Id, <- app_assoc.
Qed.

Lemma handleLogout_fields (s : State) :
  now (handleLogout opts s) = now s
  /\ pending (handleLogout opts s) = pending s
  /\ nextTimerId (handleLogout opts s) = nextTimerId s
  /\ warnTimeoutId (handleLogout opts s) = warnTimeoutId s
  /\ redirectTimeoutId (handleLogout opts s) = redirectTimeoutId s.
Proof.
  unfold handleLogout, invoke, closeDialog.
  destruct (onLogout opts); cbn; try destruct (dialog s); cbn; auto 10.
Qed.

(** C9, as the code has it.  [handleContinue] and [handleLogout] invoke the
    user-supplied action first.  [handleContinue] only then closes the
    dialog, writes the record, clears the two handles and arms the new
    timers; when the action throws, none of that happens and the timers,
    the handles and the dialog stay as they were.  [handleLogout] then
    closes the dialog; it never touches a timer.  [handleTimeout] closes
    the dialog before it invokes [onTimeout] and touches no timer either. *)
Theorem user_action_order (st : State) :
  trace (handleContinue opts env st)
  = trace st
    ++ invoked (onContinue opts) EvOnContinue (now st)
    ++ (if throws (onContinue opts) then []
        else closed (dialog st) (now st) ++ restarted opts env st)
  /\ (throws (onContinue opts) = true ->
      pending (handleContinue opts env st) = pending st
      /\ warnTimeoutId (handleContinue opts env st) = warnTimeoutId st
      /\ redirectTimeoutId (handleContinue opts env st) = redirectTimeoutId st
      /\ dialog (handleContinue opts env st) = dialog st
      /\ localStorage (handleContinue opts env st) = localStorage st)
  /\ trace (handleLogout opts st)
     = trace st
       ++ invoked (onLogout opts) EvOnLogout (now st)
       ++ (if throws (onLogout opts) then [] else closed (dialog st) (now st))
  /\ pending (handleLogout opts st) = pending st
  /\ warnTimeoutId (handleLogout opts st) = warnTimeoutId st
  /\ redirectTimeoutId (handleLogout opts st) = redirectTimeoutId st
  /\ trace (handleTimeout opts st)
     = trace st ++ closed (dialog st) (now st)
                ++ invoked (onTimeout opts) EvOnTimeout (now st)
  /\ pending (handleTimeout opts st) = pending st
  /\ warnTimeoutId (handleTimeout opts st) = warnTimeoutId st
  /\ redirectTimeoutId (handleTimeout opts st) = redirectTimeoutId st.
Proof.
  destruct (handleLogout_fields st) as (_ & Lp & _ & Lw & Lr).
  destruct (handleTimeout_trace opts st) as (Tt & _ & Tp).
  split; [apply handleContinue_trace |].
  split.
  { intros Ht. unfold handleContinue. rewrite Ht.
    destruct (onContinue opts); cbn; auto. }
  split; [apply handleLogout_trace |].
  repeat split; auto;
    unfold handleTimeout, invoke, closeDialog;
    destruct (onTimeout opts), (dialog st); reflexivity.
Qed.

End Decisions.

(** C9 as stated fails.  With the warning showing, a click on Continue
    invokes [onContinue] before anything else: the close, the write and the
    four timer operations all come after it.  When [onContinue] throws,
    the old timeout timer is still pending under the old handle and the
    dialog is still up. *)
Lemma continue_action_precedes_timer_handling :
  let st := exWarned in
  let delta := traceSince st (handleContinue exOpts exEnv st) in
  let st' := handleContinue exThrowing exEnv exWarnedThrowing in
  delta = [ (1150, EvOnContinue);
            (1150, EvDialogClose);
            (1150, EvSetItem storageKey (toString 1150));
            (1150, EvClearTimeout 1);
            (1150, EvClearTimeout 2);
            (1150, EvSetTimeout 3 100 ShowDialogCb);
            (1150, EvSetTimeout 4 200 HandleTimeoutCb) ]
  /\ timersSettledFirst delta = false
  /\ traceSince exWarnedThrowing st' = [(1150, EvOnContinue)]
  /\ pending st' = [mkTimer 2 1200 HandleTimeoutCb]
  /\ redirectTimeoutId st' = Some 2%positive
  /\ dialog st' = true.
Proof. vm_compute. repeat split; reflexivity. Qed.

(** C4 as stated fails.  30 ms into a 100/200 countdown, a notification
    whose instant is 150 ms old opens the dialog and cancels nothing: both
    timers are still pending and no [clearTimeout] is among the effects. *)
Lemma remote_overdue_cancels_nothing :
  let st := exCounting in
  let st' := handleStorageChange exOpts (resetEvent 880) st in
  warnAt exOpts <= now st - 880
  /\ pending st = [ mkTimer 1 1100 ShowDialogCb;
                    mkTimer 2 1200 HandleTimeoutCb ]
  /\ pending st' = pending st
  /\ traceSince st st' = [(1030, EvDialogCreate); (1030, EvShowModal)]
  /\ existsb isTimerEffect (traceSince st st') = false.
Proof.
  vm_compute. repeat split; try reflexivity. discriminate.
Qed.

(** ** The overdue branches and the handle invariant *)

Section Overdue.

Context (opts : Options) (env : Env).

(** C4, as the code has it.  Where the instant handed to the
    reconciliation lies [warnAt] or more in the past, no handle is
    cancelled: the notification handler closes and reopens the dialog and
    leaves the pending timers and both handle variables as they were, and
    the activation block just opens the dialog.  In every reachable state
    at most one warn timer and at most one timeout timer are pending, each
    under the handle its variable holds; and [startTimers] clears both
    handles before it arms either timer, leaving exactly the two new
    timers pending. *)
Theorem overdue_paths_cancel_nothing (st : State) :
  (forall v t,
     parseInt v = Num t -> warnAt opts <= now st - t ->
     let st' :=
       handleStorageChange opts (mkStorageEvent (Some storageKey) (Some v)) st in
     pending st' = pending st
     /\ warnTimeoutId st' = warnTimeoutId st
     /\ redirectTimeoutId st' = redirectTimeoutId st
     /\ trace st' = trace st ++ closed (dialog st) (now st)
                             ++ shown false (now st)
     /\ dialog st' = true)
  /\ (forall z,
        getLastResetTime env st = Some (Num z) -> z <> 0 ->
        warnAt opts <= now st - z ->
        reconcileOnActivation opts env st = showDialog st
        /\ pending (showDialog st) = pending st)
  /\ (reachable opts env st ->
      (length (warnDue st) <= 1)%nat
      /\ (length (redirectDue st) <= 1)%nat
      /\ Forall (tracked st) (pending st)
      /\ pending (startTimers opts st)
         = freshTimers opts (now st) (nextTimerId st)
      /\ trace (startTimers opts st)
         = trace st ++ cleared (warnTimeoutId st) (now st)
                    ++ cleared (redirectTimeoutId st) (now st)
                    ++ armed opts (now st) (nextTimerId st)).
Proof.
  split; [| split].
  - intros v t Hv Hle. cbn zeta.
    rewrite (handleStorageChange_own_key opts v t st Hv).
    destruct (Z.leb_spec (warnAt opts) (now st - t)); [| lia].
    unfold showDialog, closeDialog, closed, shown.
    destruct (dialog st) eqn:E; cbn; rewrite ?E; cbn;
      rewrite <- ?app_assoc; auto 10.
  - intros z Hg Hz Hle. rewrite (reconcile_truthy opts env st z Hg Hz).
    cbn zeta. destruct (Z.leb_spec (warnAt opts) (now st - z)); [| lia].
    split; [reflexivity |]. unfold showDialog. now destruct (dialog st).
  - intros Hr. pose proof (reachable_Inv opts env st Hr) as HI.
    destruct (Inv_one_of_each env st HI) as [Hw Hrd].
    repeat split; auto.
    + apply (inv_tracked _ _ HI).
    + now apply (startTimers_pending opts env).
    + apply startTimers_trace.
Qed.

End Overdue.

Lemma overdue_paths_cancel_nothing_witness :
  let st := exCounting in
  let st' := handleStorageChange exOpts (resetEvent 880) st in
  warnAt exOpts <= now st - 880
  /\ pending st' = pending st
  /\ dialog st' = true
  /\ (length (warnDue st) <= 1)%nat
  /\ (length (redirectDue st) <= 1)%nat
  /\ pending (startTimers exOpts st)
     = freshTimers exOpts (now st) (nextTimerId st).
Proof.
  cbn zeta.
  assert (Hle : warnAt exOpts <= now exCounting - 880)
    by (vm_compute; discriminate).
  destruct (overdue_paths_cancel_nothing exOpts exEnv exCounting)
    as (H1 & _ & H3).
  destruct (H1 (toString 880) 880 eq_refl Hle) as (P & _ & _ & _ & D).
  destruct (H3 reachable_exCounting) as (W & R & _ & S & _).
  auto 10.
Defined.

(** ** After [destroy] *)

Section Disposal.

Context (opts : Options) (env : Env).

Lemma destroy_quiet (st : State) :
  Inv env st ->
  (hasAddEventListener env = true -> hasRemoveEventListener env = true) ->
  pending (destroy env st) = []
  /\ storageEventListener (destroy env st) = false
  /\ dialog (destroy env st) = false.
Proof.
  intros HI Henv. unfold destroy.
  pose proof (pending_cleared env st HI) as Hp.
  destruct (cleared_fields st) as (_ & _ & _ & _ & _ & _ & Hl).
  set (s2 := clearRedirectTimer (clearWarnTimer st)) in *.
  destruct (closeDialog_trace s2) as [_ Cd].
  destruct (closeDialog_fields s2) as (_ & Cp & _).
  assert (Cl : storageEventListener (closeDialog s2) = storageEventListener st).
  { rewrite <- Hl. unfold closeDialog. now destruct (dialog s2). }
  unfold removeStorageListener. rewrite Cl.
  destruct (storageEventListener st) eqn:El.
  - destruct (inv_listener _ _ HI El) as [Hw Ha].
    rewrite Hw, (Henv Ha). cbn. rewrite Cp, Hp, Cd. auto.
  - cbn. rewrite Cp, Hp, Cd, Cl. auto.
Qed.

(** A session with nothing pending and no handler registered is inert:
    time and storage events change its clock and nothing else. *)
Lemma inert_step (i : Input) (s : State) :
  hostEvent i = true ->
  pending s = [] -> storageEventListener s = false ->
  pending (step opts env i s) = []
  /\ storageEventListener (step opts env i s) = false
  /\ trace (step opts env i s) = trace s
  /\ dialog (step opts env i s) = dialog s
  /\ localStorage (step opts env i s) = localStorage s.
Proof.
  intros Hh Hp Hl. destruct i; try discriminate; cbn.
  - destruct (dt <? 0); [auto |]. unfold advanceTo.
    destruct (now s + dt <? now s); [auto |]. rewrite Hp. cbn. auto.
  - rewrite Hl. auto.
Qed.

Lemma inert_run (inputs : list Input) (s : State) :
  forallb hostEvent inputs = true ->
  pending s = [] -> storageEventListener s = false ->
  trace (run opts env inputs s) = trace s
  /\ pending (run opts env inputs s) = []
  /\ dialog (run opts env inputs s) = dialog s
  /\ localStorage (run opts env inputs s) = localStorage s.
Proof.
  revert s. induction inputs as [| i inputs IH]; intros s Hh Hp Hl; cbn.
  - auto.
  - cbn in Hh. apply andb_true_iff in Hh as [Hi Hh].
    destruct (inert_step i s Hi Hp Hl) as (Sp & Sl & St & Sd & Ss).
    destruct (IH (step opts env i s) Hh Sp Sl) as (Rt & Rp & Rd & Rs).
    unfold run in *. rewrite Rt, Rp, Rd, Rs, St, Sd, Ss. auto.
Qed.

(** C7. Once [destroy] has run in a reachable state, on a host that lets
    a handler be removed wherever it lets one be added, no sequence of
    elapsing time and arriving storage events has any effect: the trace
    stays as [destroy] left it (no dialog shown, no [onTimeout], no write
    to the store), nothing is pending, the dialog stays closed and the
    store keeps its contents. *)
Theorem destroyed_session_is_silent (st : State) (inputs : list Input) :
  reachable opts env st ->
  (hasAddEventListener env = true -> hasRemoveEventListener env = true) ->
  forallb hostEvent inputs = true ->
  let d := destroy env st in
  trace (run opts env inputs d) = trace d
  /\ pending (run opts env inputs d) = []
  /\ dialog (run opts env inputs d) = false
  /\ localStorage (run opts env inputs d) = localStorage d.
Proof.
  intros Hr Henv Hh. cbn zeta.
  destruct (destroy_quiet st (reachable_Inv opts env st Hr) Henv)
    as (Hp & Hl & Hd).
  destruct (inert_run inputs (destroy env st) Hh Hp Hl) as (Rt & Rp & Rd & Rs).
  rewrite Rd, Hd. auto.
Qed.

End Disposal.

Lemma destroyed_session_is_silent_witness :
  let inputs := [ Elapse 500; Storage (resetEvent 1200);
                  Storage (resetEvent 1700); Elapse 1000 ] in
  let d := destroy exEnv exWarned in
  forallb hostEvent inputs = true
  /\ trace (run exOpts exEnv inputs d) = trace d
  /\ pending (run exOpts exEnv inputs d) = []
  /\ dialog (run exOpts exEnv inputs d) = false
  /\ localStorage (run exOpts exEnv inputs d) = localStorage d.
Proof.
  cbn zeta. split; [reflexivity |].
  apply (destroyed_session_is_silent exOpts exEnv exWarned).
  - exact reachable_exWarned.
  - reflexivity.
  - reflexivity.
Defined.

Lemma user_action_order_witness :
  let st := exWarnedThrowing in
  let st' := handleContinue exThrowing exEnv st in
  throws (onContinue exThrowing) = true
  /\ trace st'
     = trace st
       ++ invoked (onContinue exThrowing) EvOnContinue (now st)
       ++ (if throws (onContinue exThrowing) then []
           else closed (dialog st) (now st) ++ restarted exThrowing exEnv st)
  /\ pending st' = pending st
  /\ redirectTimeoutId st' = redirectTimeoutId st
  /\ dialog st' = dialog st.
Proof.
  cbn zeta.
  destruct (user_action_order exThrowing exEnv exWarnedThrowing)
    as (T & K & _).
  destruct (K eq_refl) as (P & _ & R & D & _).
  auto 10.
Defined.

(** * Further properties of the session *)

(** ** The trace agrees with the closure variables *)

Section Balance.

Context (opts : Options) (env : Env).

Lemma tally_app (p : Effect -> bool) (a b : list (Z * Effect)) :
  tally p (a ++ b) = tally p a + tally p b.
Proof.
  induction a as [| [t e] a IH]; cbn; [reflexivity |]. rewrite IH. lia.
Qed.

Ltac bal_cases :=
  cbn;
  repeat match goal with
         | |- context [match ?x with _ => _ end] => destruct x eqn:?; cbn
         end.

Ltac bal_bools :=
  repeat match goal with
         | E : _ = true |- _ => try rewrite E in *; clear E
         | E : _ = false |- _ => try rewrite E in *; clear E
         end.

Ltac bal :=
  intros [Hd Hl Ho];
  unfold handleLogout, handleTimeout, updateLastResetTime, invoke,
    removeStorageListener, showDialog, closeDialog, startTimers,
    clearWarnTimer, clearRedirectTimer, clearTimeout, setTimeout;
  bal_cases; cbn in *; try discriminate;
  split; cbn in *; bal_bools; cbn in *;
  rewrite ?tally_app; cbn; lia.

Lemma Balanced_setNow (t : Z) (st : State) :
  Balanced st -> Balanced (setNow t st).
Proof. intros [Hd Hl Ho]. now split. Qed.

Lemma Balanced_setPending (l : list Timer) (st : State) :
  Balanced st -> Balanced (setPending l st).
Proof. intros [Hd Hl Ho]. now split. Qed.

Lemma Balanced_closeDialog (st : State) :
  Balanced st -> Balanced (closeDialog st).
Proof. bal. Qed.

Lemma Balanced_showDialog (st : State) :
  Balanced st -> Balanced (showDialog st).
Proof. bal. Qed.

Lemma Balanced_invoke (cb : Callback) (e : Effect) (st : State) :
  isCallback e = true -> Balanced st -> Balanced (invoke cb e st).
Proof.
  intros He [Hd Hl Ho]. destruct cb; cbn; [now split | |];
    (split; cbn; rewrite ?tally_app; cbn;
     destruct e; try discriminate; cbn; lia).
Qed.

Lemma Balanced_handleTimeout (st : State) :
  Balanced st -> Balanced (handleTimeout opts st).
Proof. bal. Qed.

Lemma Balanced_handleLogout (st : State) :
  Balanced st -> Balanced (handleLogout opts st).
Proof. bal. Qed.

Lemma Balanced_updateLastResetTime (st : State) :
  Balanced st -> Balanced (updateLastResetTime env st).
Proof. bal. Qed.

Lemma Balanced_startTimers (st : State) :
  Balanced st -> Balanced (startTimers opts st).
Proof. bal. Qed.

Lemma Balanced_clearTimers (st : State) :
  Balanced st -> Balanced (clearRedirectTimer (clearWarnTimer st)).
Proof. bal. Qed.

Lemma Balanced_removeStorageListener (st : State) :
  Balanced st -> Balanced (removeStorageListener env st).
Proof.
  intros [Hd Hl Ho]. unfold removeStorageListener.
  destruct (storageEventListener st) eqn:E; cbn;
    [| split; rewrite ?E; assumption].
  destruct (hasWindow env && hasRemoveEventListener env);
    [| split; rewrite ?E; assumption].
  cbn in *. split; cbn; rewrite ?tally_app; cbn; lia.
Qed.

Lemma Balanced_reset (st : State) :
  Balanced st -> Balanced (reset opts env st).
Proof.
  intros H. unfold reset.
  apply Balanced_startTimers, Balanced_updateLastResetTime,
    Balanced_closeDialog, H.
Qed.

Lemma Balanced_handleContinue (st : State) :
  Balanced st -> Balanced (handleContinue opts env st).
Proof.
  intros H. unfold handleContinue.
  destruct (throws (onContinue opts)).
  - now apply Balanced_invoke.
  - apply Balanced_startTimers, Balanced_updateLastResetTime,
      Balanced_closeDialog, Balanced_invoke; auto.
Qed.

Lemma Balanced_handleStorageChange (event : StorageEvent) (st : State) :
  Balanced st -> Balanced (handleStorageChange opts event st).
Proof.
  intros H. unfold handleStorageChange.
  destruct (key event), (newValue event); auto.
  destruct (_ && _); auto.
  destruct (jsGe _ _); [apply Balanced_showDialog, Balanced_closeDialog, H |].
  destruct (jsLt _ _);
    [apply Balanced_startTimers, Balanced_closeDialog, H | exact H].
Qed.

Lemma Balanced_destroy (st : State) :
  Balanced st -> Balanced (destroy env st).
Proof.
  intros H. unfold destroy.
  apply Balanced_removeStorageListener, Balanced_closeDialog,
    Balanced_clearTimers, H.
Qed.

Lemma Balanced_fire (t : Timer) (st : State) :
  Balanced st -> Balanced (fire opts t st).
Proof.
  intros H. unfold fire.
  destruct (callback t);
    [apply Balanced_showDialog | apply Balanced_handleTimeout];
    apply Balanced_setNow, Balanced_setPending, H.
Qed.

Lemma Balanced_runDue (fuel : nat) (target : Z) (st : State) :
  Balanced st -> Balanced (runDue opts fuel target st).
Proof.
  revert st. induction fuel as [| fuel IH]; intros st H; cbn; [exact H |].
  destruct (nextDue target (pending st)); [| exact H].
  apply IH, Balanced_fire, H.
Qed.

Lemma Balanced_advanceTo (target : Z) (st : State) :
  Balanced st -> Balanced (advanceTo opts target st).
Proof.
  intros H. unfold advanceTo. destruct (target <? now st); [exact H |].
  apply Balanced_setNow, Balanced_runDue, H.
Qed.

Lemma Balanced_step (i : Input) (st : State) :
  Balanced st -> Balanced (step opts env i st).
Proof.
  intros H. destruct i; cbn.
  - destruct (dt <? 0); [exact H | now apply Balanced_advanceTo].
  - destruct (storageEventListener st);
      [now apply Balanced_handleStorageChange | exact H].
  - destruct (dialog st); [now apply Balanced_handleContinue | exact H].
  - destruct (dialog st); [now apply Balanced_handleLogout | exact H].
  - now apply Balanced_showDialog.
  - now apply Balanced_closeDialog.
  - now apply Balanced_reset.
  - now apply Balanced_destroy.
Qed.

Lemma Balanced_arm (cb : TimerCallback) (d : Z) (st : State) :
  Balanced st ->
  Balanced (setWarnTimeoutId (Some (nextTimerId st)) (setTimeout cb d st))
  /\ Balanced (setRedirectTimeoutId (Some (nextTimerId st))
                 (setTimeout cb d st)).
Proof.
  intros [Hd Hl Ho]. split; split; cbn; rewrite ?tally_app; cbn; lia.
Qed.

Lemma Balanced_reconcileOnActivation (st : State) :
  Balanced st -> Balanced (reconcileOnActivation opts env st).
Proof.
  intros H. unfold reconcileOnActivation.
  destruct (getLastResetTime env st) as [[| z] |];
    try (apply Balanced_startTimers, H).
  destruct (truthyNum (Num z)); [| apply Balanced_startTimers, H].
  destruct (warnAt opts <=? now st - z); [apply Balanced_showDialog, H |].
  destruct (now st - z <? Z.min (warnAt opts) (timeoutAt opts));
    [| apply Balanced_startTimers, H].
  destruct (0 <? Z.max 0 (warnAt opts - (now st - z))),
           (0 <? Z.max 0 (timeoutAt opts - (now st - z))); auto.
  - apply Balanced_arm, Balanced_arm, H.
  - apply Balanced_arm, H.
  - apply Balanced_arm, H.
Qed.

Lemma Balanced_sessionTimeout (t : Z) (ls : gmap string string) (id : positive) :
  Balanced (sessionTimeout opts env (freshSession t ls id)).
Proof.
  unfold sessionTimeout.
  apply Balanced_reconcileOnActivation, Balanced_updateLastResetTime.
  unfold setupStorageListener.
  destruct (hasWindow env && hasAddEventListener env);
    split; cbn; reflexivity || lia.
Qed.

Lemma reachable_Balanced (st : State) :
  reachable opts env st -> Balanced st.
Proof.
  induction 1 as [t ls id | i st _ IH].
  - apply Balanced_sessionTimeout.
  - apply Balanced_step, IH.
Qed.

End Balance.

(** ** No pending timer is overdue *)

Section Schedule.

Context (opts : Options) (env : Env).

Lemma Sched_ext (a b : State) :
  now b = now a -> pending b = pending a -> Sched a -> Sched b.
Proof. unfold Sched. now intros -> ->. Qed.

Lemma Sched_clearTimeout (id : positive) (st : State) :
  Sched st -> Sched (clearTimeout id st).
Proof.
  unfold Sched, clearTimeout. cbn. intros H.
  apply List.Forall_forall. intros t Hin.
  apply removeTimer_In in Hin as [Hin _].
  rewrite List.Forall_forall in H. auto.
Qed.

Lemma Sched_setTimeout (cb : TimerCallback) (d : Z) (st : State) :
  Sched st -> Sched (setTimeout cb d st).
Proof.
  unfold Sched, setTimeout. cbn. intros H.
  apply Forall_app. split; [exact H |]. repeat constructor. cbn. lia.
Qed.

Lemma Sched_closeDialog (st : State) : Sched st -> Sched (closeDialog st).
Proof. apply Sched_ext; unfold closeDialog; now destruct (dialog st). Qed.

Lemma Sched_showDialog (st : State) : Sched st -> Sched (showDialog st).
Proof. apply Sched_ext; unfold showDialog; now destruct (dialog st). Qed.

Lemma Sched_invoke (cb : Callback) (e : Effect) (st : State) :
  Sched st -> Sched (invoke cb e st).
Proof. apply Sched_ext; now destruct cb. Qed.

Lemma Sched_updateLastResetTime (st : State) :
  Sched st -> Sched (updateLastResetTime env st).
Proof.
  apply Sched_ext; unfold updateLastResetTime;
    now destruct (hasLocalStorage env).
Qed.

Lemma Sched_clearTimers (st : State) :
  Sched st -> Sched (clearRedirectTimer (clearWarnTimer st)).
Proof.
  intros H. unfold clearRedirectTimer, clearWarnTimer.
  destruct (warnTimeoutId st); cbn; destruct (redirectTimeoutId st); cbn;
    auto using Sched_clearTimeout.
  - apply (Sched_clearTimeout p0 (setWarnTimeoutId None (clearTimeout p st))).
    now apply (Sched_clearTimeout p st).
  - now apply (Sched_clearTimeout p st).
  - now apply (Sched_clearTimeout p st).
Qed.

Lemma Sched_startTimers (st : State) :
  Sched st -> Sched (startTimers opts st).
Proof.
  intros H. unfold startTimers.
  set (s2 := clearRedirectTimer (clearWarnTimer st)).
  assert (H2 : Sched s2) by now apply Sched_clearTimers.
  set (s3 := setWarnTimeoutId _ (setTimeout ShowDialogCb _ s2)).
  assert (H3 : Sched s3) by apply (Sched_setTimeout ShowDialogCb _ s2 H2).
  apply (Sched_setTimeout HandleTimeoutCb _ s3 H3).
Qed.

Lemma Sched_reset (st : State) : Sched st -> Sched (reset opts env st).
Proof.
  intros H. unfold reset.
  apply Sched_startTimers, Sched_updateLastResetTime, Sched_closeDialog, H.
Qed.

Lemma Sched_handleContinue (st : State) :
  Sched st -> Sched (handleContinue opts env st).
Proof.
  intros H. unfold handleContinue. destruct (throws (onContinue opts)).
  - now apply Sched_invoke.
  - apply Sched_startTimers, Sched_updateLastResetTime, Sched_closeDialog,
      Sched_invoke, H.
Qed.

Lemma Sched_handleLogout (st : State) :
  Sched st -> Sched (handleLogout opts st).
Proof.
  intros H. unfold handleLogout. destruct (throws (onLogout opts)).
  - now apply Sched_invoke.
  - now apply Sched_closeDialog, Sched_invoke.
Qed.

Lemma Sched_handleStorageChange (event : StorageEvent) (st : State) :
  Sched st -> Sched (handleStorageChange opts event st).
Proof.
  intros H. unfold handleStorageChange.
  destruct (key event), (newValue event); auto.
  destruct (_ && _); auto.
  destruct (jsGe _ _); [apply Sched_showDialog, Sched_closeDialog, H |].
  destruct (jsLt _ _); [apply Sched_startTimers, Sched_closeDialog, H | exact H].
Qed.

Lemma Sched_destroy (st : State) : Sched st -> Sched (destroy env st).
Proof.
  intros H. unfold destroy.
  assert (H1 : Sched (closeDialog (clearRedirectTimer (clearWarnTimer st))))
    by now apply Sched_closeDialog, Sched_clearTimers.
  revert H1. apply Sched_ext; unfold removeStorageListener;
    now destruct (_ && _).
Qed.

(** The host fires the earliest due timer: what stays pending is due no
    earlier. *)
Lemma Sched_fire (target : Z) (t : Timer) (st : State) :
  Sched st -> nextDue target (pending st) = Some t ->
  Sched (fire opts t st).
Proof.
  intros H E. unfold Sched.
  destruct (fire_fields opts t st) as (_ & _ & _ & _ & _ & Hn).
  rewrite fire_pending, Hn. apply List.Forall_forall. intros u Hin.
  apply removeTimer_In in Hin as [Hin _].
  unfold Sched in H. rewrite List.Forall_forall in H. specialize (H u Hin).
  destruct (Z.le_gt_cases (due u) target) as [Hle | Hgt].
  - pose proof (nextDue_min target (pending st) t u E Hin Hle). lia.
  - apply nextDue_In in E as [_ Ht]. lia.
Qed.

Lemma Sched_runDue (fuel : nat) (target : Z) (st : State) :
  Sched st -> Sched (runDue opts fuel target st).
Proof.
  revert st. induction fuel as [| fuel IH]; intros st H; cbn; [exact H |].
  destruct (nextDue target (pending st)) as [t |] eqn:E; [| exact H].
  eapply IH, Sched_fire; eauto.
Qed.

Lemma Sched_advanceTo (target : Z) (st : State) :
  Sched st -> Sched (advanceTo opts target st).
Proof.
  intros H. unfold advanceTo.
  destruct (Z.ltb_spec target (now st)); [exact H |].
  unfold Sched. cbn.
  pose proof (runDue_complete opts (length (pending st)) target st
                (Nat.le_refl _)) as Hc.
  apply nextDue_None in Hc. eapply Forall_impl; [exact Hc |].
  cbn. intros; lia.
Qed.

Lemma Sched_step (i : Input) (st : State) :
  Sched st -> Sched (step opts env i st).
Proof.
  intros H. destruct i; cbn.
  - destruct (dt <? 0); [exact H | now apply Sched_advanceTo].
  - destruct (storageEventListener st);
      [now apply Sched_handleStorageChange | exact H].
  - destruct (dialog st); [now apply Sched_handleContinue | exact H].
  - destruct (dialog st); [now apply Sched_handleLogout | exact H].
  - now apply Sched_showDialog.
  - now apply Sched_closeDialog.
  - now apply Sched_reset.
  - now apply Sched_destroy.
Qed.

Lemma Sched_reconcileOnActivation (st : State) :
  Sched st -> Sched (reconcileOnActivation opts env st).
Proof.
  intros H. unfold reconcileOnActivation.
  destruct (getLastResetTime env st) as [[| z] |];
    try (apply Sched_startTimers, H).
  destruct (truthyNum (Num z)); [| apply Sched_startTimers, H].
  destruct (warnAt opts <=? now st - z); [apply Sched_showDialog, H |].
  destruct (now st - z <? Z.min (warnAt opts) (timeoutAt opts));
    [| apply Sched_startTimers, H].
  set (dw := Z.max 0 (warnAt opts - (now st - z))).
  set (dt := Z.max 0 (timeoutAt opts - (now st - z))).
  pose proof (Sched_setTimeout ShowDialogCb dw st H) as H1.
  destruct (0 <? dw), (0 <? dt); auto.
  - apply (Sched_setTimeout HandleTimeoutCb dt
             (setWarnTimeoutId (Some (nextTimerId st))
                (setTimeout ShowDialogCb dw st))), H1.
  - apply (Sched_setTimeout HandleTimeoutCb dt st H).
Qed.

Lemma Sched_sessionTimeout (t : Z) (ls : gmap string string) (id : positive) :
  Sched (sessionTimeout opts env (freshSession t ls id)).
Proof.
  unfold sessionTimeout.
  apply Sched_reconcileOnActivation, Sched_updateLastResetTime.
  unfold setupStorageListener, Sched.
  destruct (_ && _); constructor.
Qed.

Lemma reachable_Sched (st : State) : reachable opts env st -> Sched st.
Proof.
  induction 1 as [t ls id | i st _ IH].
  - apply Sched_sessionTimeout.
  - apply Sched_step, IH.
Qed.

End Schedule.

(** ** The store, [reset], [destroy] and the storage handler *)

Section Further.

Context (opts : Options) (env : Env).

Ltac cases :=
  cbn;
  repeat match goal with
         | |- context [match ?x with _ => _ end] => destruct x eqn:?; cbn
         end.

Lemma getLastResetTime_ext (a b : State) :
  localStorage a = localStorage b ->
  getLastResetTime env a = getLastResetTime env b.
Proof. unfold getLastResetTime. now intros ->. Qed.

Lemma published_instant_read_back (st : State) :
  hasLocalStorage env = true ->
  getLastResetTime env (updateLastResetTime env st) = Some (Num (now st)).
Proof.
  intros He.
  erewrite getLastResetTime_stored; [| exact He |].
  - now rewrite toString_truthy, parseInt_toString.
  - unfold updateLastResetTime. rewrite He. cbn. apply lookup_insert_eq.
Qed.

Lemma startTimers_store (st : State) :
  localStorage (startTimers opts st) = localStorage st.
Proof. apply (startTimers_fields opts st). Qed.

Lemma closeDialog_store (st : State) :
  localStorage (closeDialog st) = localStorage st.
Proof. unfold closeDialog. now destruct (dialog st). Qed.

(** X1. [reset()], called in any reachable state, closes the dialog,
    publishes the current instant (where there is a store) and leaves
    exactly the two timers of a fresh countdown pending, counted from
    now; its effects are, in order, the close, the write, the clears and
    the two [setTimeout] calls. *)
Theorem reset_restarts_countdown (st : State) :
  reachable opts env st ->
  let st' := reset opts env st in
  dialog st' = false
  /\ pending st' = freshTimers opts (now st) (nextTimerId st)
  /\ getLastResetTime env st'
     = (if hasLocalStorage env then Some (Num (now st)) else None)
  /\ trace st' = trace st ++ closed (dialog st) (now st)
                          ++ restarted opts env st
  /\ now st' = now st.
Proof.
  intros Hr. cbn zeta. pose proof (reachable_Inv opts env st Hr) as HI.
  destruct (reset_trace opts env st) as (Rt & Rd & Rn).
  split; [exact Rd |]. split; [| split; [| split; [exact Rt | exact Rn]]].
  - unfold reset.
    rewrite (startTimers_pending opts env)
      by now apply Inv_updateLastResetTime, Inv_closeDialog.
    destruct (updateLastResetTime_trace env (closeDialog st))
      as (_ & Un & _ & Ui & _).
    destruct (closeDialog_fields st) as (Cn & _ & Ci & _).
    now rewrite Un, Ui, Cn, Ci.
  - unfold reset.
    rewrite (getLastResetTime_ext _ (updateLastResetTime env (closeDialog st)))
      by apply startTimers_store.
    destruct (hasLocalStorage env) eqn:He.
    + rewrite published_instant_read_back by exact He.
      now destruct (closeDialog_fields st) as (-> & _).
    + unfold getLastResetTime. now rewrite He.
Qed.

(** X2. What [updateLastResetTime] writes, [getLastResetTime] reads back:
    in a tab with a store the instant read is the instant of the write,
    whatever the record held before and for every instant (zero and
    negative included), and no other key of the store changes.  In a tab
    without a store the write does nothing and the read returns null. *)
Theorem store_round_trip (st : State) :
  (hasLocalStorage env = true ->
   getLastResetTime env (updateLastResetTime env st) = Some (Num (now st))
   /\ forall k, k <> storageKey ->
        localStorage (updateLastResetTime env st) !! k = localStorage st !! k)
  /\ (hasLocalStorage env = false ->
      updateLastResetTime env st = st
      /\ getLastResetTime env st = None).
Proof.
  split; intros He.
  - split; [now apply published_instant_read_back |].
    intros k Hk. unfold updateLastResetTime. rewrite He. cbn.
    now apply lookup_insert_ne.
  - unfold updateLastResetTime, getLastResetTime. now rewrite He.
Qed.

Lemma destroy_fields (st : State) :
  warnTimeoutId (destroy env st) = None
  /\ redirectTimeoutId (destroy env st) = None
  /\ dialog (destroy env st) = false
  /\ storageEventListener (destroy env st)
     && hasWindow env && hasRemoveEventListener env = false.
Proof.
  unfold destroy.
  destruct (cleared_fields st) as (_ & _ & Cw & Cr & _).
  set (s2 := clearRedirectTimer (clearWarnTimer st)) in *.
  destruct (closeDialog_trace s2) as [_ Dd].
  destruct (closeDialog_fields s2) as (_ & _ & _ & Dw & Dr).
  rewrite Cw in Dw. rewrite Cr in Dr.
  set (s3 := closeDialog s2) in *.
  unfold removeStorageListener.
  destruct (storageEventListener s3 && hasWindow env
            && hasRemoveEventListener env) eqn:E; cbn; auto.
Qed.

(** X3. [destroy()] is idempotent: a second call changes nothing and has
    no effect on the host. *)
Theorem destroy_idempotent (st : State) :
  destroy env (destroy env st) = destroy env st.
Proof.
  destruct (destroy_fields st) as (Hw & Hr & Hd & Hl).
  set (d := destroy env st) in *.
  unfold destroy at 1. unfold clearWarnTimer. rewrite Hw.
  unfold clearRedirectTimer. rewrite Hr.
  unfold closeDialog. rewrite Hd.
  unfold removeStorageListener. now rewrite Hl.
Qed.

(** X4. In every reachable state the dialogs the session has created and
    not yet closed number one when the variable holds a dialog and none
    otherwise: it never has two dialogs attached, and never closes one it
    did not create. *)
Theorem one_dialog_at_a_time (st : State) :
  reachable opts env st ->
  tally isDialogCreate (trace st) - tally isDialogClose (trace st)
  = b2z (dialog st).
Proof.
  intros Hr.
  assert (HB : Balanced st).
  { induction Hr as [t ls id | i st _ IH].
    - apply Balanced_sessionTimeout.
    - apply Balanced_step, IH. }
  exact (bal_dialog st HB).
Qed.

(** X5. In every reachable state the storage handler has been added at
    most once and removed at most as often as it was added, and it is
    registered exactly when it was added and not removed. *)
Theorem subscribed_at_most_once (st : State) :
  reachable opts env st ->
  tally isAddListener (trace st) <= 1
  /\ tally isRemoveListener (trace st) <= tally isAddListener (trace st)
  /\ tally isAddListener (trace st) - tally isRemoveListener (trace st)
     = b2z (storageEventListener st).
Proof.
  intros Hr. destruct (reachable_Balanced opts env st Hr) as [_ Hl Ho].
  repeat split; auto. unfold b2z in Hl.
  destruct (storageEventListener st); lia.
Qed.

(** X6. A storage event for the session's key is ignored, leaving the
    state as it was, when its new value does not parse as a number, and
    when its instant is stale: at least [min warnAt timeoutAt] but less
    than [warnAt] in the past. *)
Theorem storage_event_unreadable_or_stale (v : string) (st : State) :
  parseInt v = NaN
  \/ (exists t, parseInt v = Num t
                /\ Z.min (warnAt opts) (timeoutAt opts) <= now st - t
                   < warnAt opts) ->
  handleStorageChange opts (mkStorageEvent (Some storageKey) (Some v)) st = st.
Proof.
  intros [Hn | (t & Ht & Hlo & Hhi)].
  - unfold handleStorageChange. cbn [key newValue].
    rewrite String.eqb_refl, Hn. cbn. now destruct (truthyStr v).
  - rewrite (handleStorageChange_own_key opts v t st Ht).
    destruct (Z.leb_spec (warnAt opts) (now st - t)); [lia |].
    destruct (Z.ltb_spec (now st - t) (Z.min (warnAt opts) (timeoutAt opts)));
      [lia | reflexivity].
Qed.

Lemma tally_showDialog (p : Effect -> bool) (s : State) :
  p EvDialogCreate = false -> p EvShowModal = false ->
  tally p (trace (showDialog s)) = tally p (trace s).
Proof.
  intros H1 H2. unfold showDialog. destruct (dialog s); cbn;
    rewrite ?tally_app; cbn; rewrite ?H1, ?H2; lia.
Qed.

Lemma tally_closeDialog (p : Effect -> bool) (s : State) :
  p EvDialogClose = false ->
  tally p (trace (closeDialog s)) = tally p (trace s).
Proof.
  intros H1. unfold closeDialog. destruct (dialog s); cbn;
    rewrite ?tally_app; cbn; rewrite ?H1; lia.
Qed.

Lemma tally_startTimers (p : Effect -> bool) (s : State) :
  (forall id, p (EvClearTimeout id) = false) ->
  (forall id d cb, p (EvSetTimeout id d cb) = false) ->
  tally p (trace (startTimers opts s)) = tally p (trace s).
Proof.
  intros H1 H2. rewrite startTimers_trace, !tally_app.
  destruct (warnTimeoutId s), (redirectTimeoutId s); cbn;
    rewrite ?H1, ?H2; lia.
Qed.

(** X7. The storage handler only listens: whatever event it is given, it
    never writes to the store and never invokes a user callback, and it
    leaves the subscription as it is. *)
Theorem storage_handler_only_listens (event : StorageEvent) (st : State) :
  let st' := handleStorageChange opts event st in
  localStorage st' = localStorage st
  /\ tally isSetItem (trace st') = tally isSetItem (trace st)
  /\ tally isCallback (trace st') = tally isCallback (trace st)
  /\ storageEventListener st' = storageEventListener st.
Proof.
  cbn zeta. unfold handleStorageChange.
  destruct (key event), (newValue event); auto.
  destruct (_ && _); auto.
  assert (Hc : localStorage (closeDialog st) = localStorage st
               /\ storageEventListener (closeDialog st)
                  = storageEventListener st)
    by (unfold closeDialog; now destruct (dialog st)).
  destruct Hc as [Hcs Hcl].
  destruct (jsGe _ _).
  - rewrite !tally_showDialog, !tally_closeDialog by reflexivity.
    unfold showDialog. destruct (dialog (closeDialog st)); cbn; auto.
  - destruct (jsLt _ _); auto.
    rewrite !tally_startTimers, !tally_closeDialog by reflexivity.
    destruct (startTimers_fields opts (closeDialog st))
      as (_ & _ & Hs & Hl & _).
    rewrite Hs, Hl. auto.
Qed.

(** X8. In a tab without [localStorage] the activation writes nothing,
    ignores whatever a store would hold and starts the full countdown:
    the two timers of [startTimers], counted from the activation. *)
Theorem activation_without_store
        (t : Z) (ls : gmap string string) (id : positive) :
  hasLocalStorage env = false ->
  let st := sessionTimeout opts env (freshSession t ls id) in
  pending st = freshTimers opts t id
  /\ localStorage st = ls
  /\ tally isSetItem (trace st) = 0
  /\ dialog st = false.
Proof.
  intros He. cbn zeta. unfold sessionTimeout.
  assert (Hu : updateLastResetTime env
                 (setupStorageListener env (freshSession t ls id))
               = setupStorageListener env (freshSession t ls id))
    by (unfold updateLastResetTime; now rewrite He).
  rewrite Hu. set (s0 := setupStorageListener env (freshSession t ls id)).
  assert (H0 : now s0 = t /\ nextTimerId s0 = id /\ localStorage s0 = ls
               /\ dialog s0 = false /\ tally isSetItem (trace s0) = 0).
  { unfold s0, setupStorageListener. destruct (_ && _); cbn; auto. }
  destruct H0 as (Hn & Hi & Hs & Hd & Ht).
  rewrite reconcile_falsy
    by (unfold getLastResetTime; rewrite He; exact I).
  destruct (startTimers_fields opts s0) as (_ & Sd & Ss & _).
  rewrite (startTimers_pending opts env)
    by (apply Inv_setupStorageListener, Inv_freshSession).
  rewrite Ss, Sd, tally_startTimers, Hn, Hi by reflexivity. auto.
Qed.

(** X9. In a tab with a store whose clock does not read 0, an activation
    with [warnAt <= 0] opens the dialog at once and arms no timer at all,
    the timeout timer included: however long one waits, nothing more
    happens and [onTimeout] is not invoked. *)
Theorem zero_warn_activation_arms_nothing
        (t : Z) (ls : gmap string string) (id : positive) :
  hasLocalStorage env = true ->
  warnAt opts <= 0 ->
  t <> 0 ->
  let st := sessionTimeout opts env (freshSession t ls id) in
  dialog st = true
  /\ pending st = []
  /\ forall target, trace (advanceTo opts target st) = trace st
                    /\ dialog (advanceTo opts target st) = true.
Proof.
  intros He Hw Ht. cbn zeta. unfold sessionTimeout.
  pose proof (published_read env t ls id He) as Hg.
  destruct (published_fields env t ls id) as (Hn & Hp & _ & _ & _ & Hd & _).
  set (s0 := updateLastResetTime env _) in *.
  rewrite (reconcile_truthy opts env s0 t Hg Ht). cbn zeta. rewrite Hn.
  destruct (Z.leb_spec (warnAt opts) (t - t)); [| lia].
  destruct (showDialog_trace s0) as [_ Sd].
  assert (Sp : pending (showDialog s0) = [])
    by (unfold showDialog; destruct (dialog s0); cbn; exact Hp).
  split; [exact Sd |]. split; [exact Sp |].
  intros target. unfold advanceTo.
  destruct (target <? now (showDialog s0)); [auto |].
  rewrite Sp. cbn. auto.
Qed.

(** X10. The reconciliation block, handed the instant [z] of the record:
    [z = 0] is falsy and gives a fresh countdown; a non-zero [z] less than
    [min warnAt timeoutAt] in the past (or in the future) makes the warn
    callback due at [z + warnAt] and the timeout callback at
    [z + timeoutAt]; a non-zero [z] at least that far but less than
    [warnAt] in the past gives a fresh countdown. *)
Theorem reconcile_counts_from_instant (st : State) (z : Z) :
  getLastResetTime env st = Some (Num z) ->
  (z = 0 -> reconcileOnActivation opts env st = startTimers opts st)
  /\ (z <> 0 -> pending st = [] ->
      now st - z < Z.min (warnAt opts) (timeoutAt opts) ->
      warnDue (reconcileOnActivation opts env st) = [z + warnAt opts]
      /\ redirectDue (reconcileOnActivation opts env st) = [z + timeoutAt opts])
  /\ (z <> 0 ->
      Z.min (warnAt opts) (timeoutAt opts) <= now st - z < warnAt opts ->
      reconcileOnActivation opts env st = startTimers opts st).
Proof.
  intros Hg. split; [| split].
  - intros ->. apply reconcile_falsy. now rewrite Hg.
  - intros Hz Hp He. rewrite (reconcile_truthy opts env st z Hg Hz).
    cbn zeta.
    destruct (Z.leb_spec (warnAt opts) (now st - z)); [lia |].
    destruct (Z.ltb_spec (now st - z) (Z.min (warnAt opts) (timeoutAt opts)));
      [| lia].
    destruct (Z.ltb_spec 0 (Z.max 0 (warnAt opts - (now st - z)))); [| lia].
    destruct (Z.ltb_spec 0 (Z.max 0 (timeoutAt opts - (now st - z)))); [| lia].
    unfold warnDue, redirectDue. cbn. rewrite Hp. cbn.
    split; f_equal; lia.
  - intros Hz [Hlo Hhi]. rewrite (reconcile_truthy opts env st z Hg Hz).
    cbn zeta.
    destruct (Z.leb_spec (warnAt opts) (now st - z)); [lia |].
    destruct (Z.ltb_spec (now st - z) (Z.min (warnAt opts) (timeoutAt opts)));
      [lia | reflexivity].
Qed.

(** X11. [destroy()] does not disable [reset()]: called on a destroyed
    session (on a host that lets a handler be removed wherever it lets one
    be added), [reset()] arms the two timers of a fresh countdown again,
    but the storage handler stays removed, so storage events are no longer
    heard. *)
Theorem reset_after_destroy_rearms (st : State) :
  reachable opts env st ->
  (hasAddEventListener env = true -> hasRemoveEventListener env = true) ->
  let st' := reset opts env (destroy env st) in
  pending st' = freshTimers opts (now st) (nextTimerId st)
  /\ storageEventListener st' = false
  /\ dialog st' = false
  /\ forall event, step opts env (Storage event) st' = st'.
Proof.
  intros Hr Henv. cbn zeta.
  pose proof (reachable_Inv opts env st Hr) as HI.
  destruct (destroy_quiet env st HI Henv) as (Dp & Dl & Dd).
  assert (HD : Inv env (destroy env st)) by now apply Inv_destroy.
  assert (Df : now (destroy env st) = now st
               /\ nextTimerId (destroy env st) = nextTimerId st).
  { unfold destroy.
    destruct (cleared_fields st) as (Cn & Ci & _).
    set (s2 := clearRedirectTimer (clearWarnTimer st)) in *.
    unfold removeStorageListener, closeDialog.
    destruct (dialog s2); cbn; destruct (_ && _); cbn; auto. }
  destruct Df as [Dn Di].
  destruct (reset_trace opts env (destroy env st)) as (_ & Rd & _).
  assert (Rl : storageEventListener (reset opts env (destroy env st)) = false).
  { unfold reset.
    destruct (startTimers_fields opts
                (updateLastResetTime env (closeDialog (destroy env st))))
      as (_ & _ & _ & Sl & _).
    rewrite Sl. unfold updateLastResetTime, closeDialog.
    destruct (hasLocalStorage env), (dialog (destroy env st)); cbn; exact Dl. }
  repeat split; auto.
  - unfold reset.
    rewrite (startTimers_pending opts env)
      by now apply Inv_updateLastResetTime, Inv_closeDialog.
    destruct (updateLastResetTime_trace env (closeDialog (destroy env st)))
      as (_ & Un & _ & Ui & _).
    destruct (closeDialog_fields (destroy env st)) as (Cn & _ & Ci & _).
    now rewrite Un, Ui, Cn, Ci, Dn, Di.
  - intros event. unfold step. now rewrite Rl.
Qed.

(** X12. A click on Continue whose callback returns publishes the reset:
    in a tab with a store the record then reads the instant of the click.
    A click on Log out never writes to the store. *)
Theorem continue_publishes_logout_does_not (st : State) :
  (onContinue opts <> Throws -> hasLocalStorage env = true ->
   getLastResetTime env (handleContinue opts env st) = Some (Num (now st)))
  /\ localStorage (handleLogout opts st) = localStorage st
  /\ tally isSetItem (trace (handleLogout opts st))
     = tally isSetItem (trace st).
Proof.
  split; [| split].
  - intros Hc He. unfold handleContinue.
    assert (Ht : throws (onContinue opts) = false)
      by (destruct (onContinue opts) eqn:E; try reflexivity; congruence).
    rewrite Ht.
    rewrite (getLastResetTime_ext _
               (updateLastResetTime env
                  (closeDialog (invoke (onContinue opts) EvOnContinue st))))
      by apply startTimers_store.
    rewrite published_instant_read_back by exact He.
    destruct (closeDialog_fields (invoke (onContinue opts) EvOnContinue st))
      as (-> & _).
    now destruct (invoke_fields (onContinue opts) EvOnContinue st) as (-> & _).
  - unfold handleLogout, invoke, closeDialog.
    destruct (onLogout opts); cbn; try destruct (dialog st); reflexivity.
  - rewrite handleLogout_trace, !tally_app.
    destruct (onLogout opts), (dialog st); cbn; lia.
Qed.

End Further.

Lemma reset_restarts_countdown_witness :
  let st := exWarned in
  let st' := reset exOpts exEnv st in
  dialog st' = false
  /\ pending st' = freshTimers exOpts (now st) (nextTimerId st)
  /\ getLastResetTime exEnv st'
     = (if hasLocalStorage exEnv then Some (Num (now st)) else None)
  /\ trace st' = trace st ++ closed (dialog st) (now st)
                          ++ restarted exOpts exEnv st
  /\ now st' = now st.
Proof.
  apply (reset_restarts_countdown exOpts exEnv exWarned reachable_exWarned).
Defined.

Lemma store_round_trip_witness :
  let st := exActivated in
  hasLocalStorage exEnv = true
  /\ getLastResetTime exEnv (updateLastResetTime exEnv st)
     = Some (Num (now st))
  /\ hasLocalStorage exNoStore = false
  /\ updateLastResetTime exNoStore st = st.
Proof.
  cbn zeta.
  destruct (store_round_trip exEnv exActivated) as [H1 _].
  destruct (store_round_trip exNoStore exActivated) as [_ H2].
  destruct (H1 eq_refl) as [R _]. destruct (H2 eq_refl) as [U _].
  auto.
Defined.

Lemma one_dialog_at_a_time_witness :
  let st := exWarned in
  tally isDialogCreate (trace st) - tally isDialogClose (trace st)
  = b2z (dialog st).
Proof.
  apply (one_dialog_at_a_time exOpts exEnv exWarned reachable_exWarned).
Defined.

Lemma subscribed_at_most_once_witness :
  let st := exWarned in
  tally isAddListener (trace st) <= 1
  /\ tally isRemoveListener (trace st) <= tally isAddListener (trace st)
  /\ tally isAddListener (trace st) - tally isRemoveListener (trace st)
     = b2z (storageEventListener st).
Proof.
  apply (subscribed_at_most_once exOpts exEnv exWarned reachable_exWarned).
Defined.

Lemma storage_event_unreadable_or_stale_witness :
  parseInt "abc" = NaN
  /\ handleStorageChange exOpts
       (mkStorageEvent (Some storageKey) (Some "abc"%string)) exWarned
     = exWarned.
Proof.
  split; [reflexivity |].
  apply (storage_event_unreadable_or_stale exOpts "abc" exWarned).
  left. reflexivity.
Defined.

Lemma activation_without_store_witness :
  let st := sessionTimeout exOpts exNoStore (freshSession 1000 exPersisted 1) in
  hasLocalStorage exNoStore = false
  /\ pending st = freshTimers exOpts 1000 1
  /\ localStorage st = exPersisted
  /\ tally isSetItem (trace st) = 0
  /\ dialog st = false.
Proof.
  cbn zeta. split; [reflexivity |].
  apply (activation_without_store exOpts exNoStore 1000 exPersisted 1).
  reflexivity.
Defined.

Lemma zero_warn_activation_arms_nothing_witness :
  let st := sessionTimeout exZeroWarn exEnv (freshSession 1000 ∅ 1) in
  warnAt exZeroWarn <= 0
  /\ dialog st = true
  /\ pending st = []
  /\ forall target, trace (advanceTo exZeroWarn target st) = trace st
                    /\ dialog (advanceTo exZeroWarn target st) = true.
Proof.
  cbn zeta. split; [vm_compute; discriminate |].
  apply (zero_warn_activation_arms_nothing exZeroWarn exEnv 1000 ∅ 1).
  - reflexivity.
  - vm_compute. discriminate.
  - discriminate.
Defined.

Lemma reconcile_counts_from_instant_witness :
  let st := freshSession 1000 exPersisted 1 in
  getLastResetTime exEnv st = Some (Num 950)
  /\ now st - 950 < Z.min (warnAt exOpts) (timeoutAt exOpts)
  /\ warnDue (reconcileOnActivation exOpts exEnv st) = [950 + warnAt exOpts]
  /\ redirectDue (reconcileOnActivation exOpts exEnv st)
     = [950 + timeoutAt exOpts].
Proof.
  cbn zeta.
  assert (Hg : getLastResetTime exEnv (freshSession 1000 exPersisted 1)
               = Some (Num 950)) by (vm_compute; reflexivity).
  assert (He : now (freshSession 1000 exPersisted 1) - 950
               < Z.min (warnAt exOpts) (timeoutAt exOpts))
    by (vm_compute; reflexivity).
  destruct (reconcile_counts_from_instant exOpts exEnv
              (freshSession 1000 exPersisted 1) 950 Hg) as (_ & H & _).
  assert (Hz : 950 <> 0) by discriminate.
  destruct (H Hz eq_refl He) as [W R]. auto.
Defined.

Lemma reset_after_destroy_rearms_witness :
  let st := exWarned in
  let st' := reset exOpts exEnv (destroy exEnv st) in
  pending st' = freshTimers exOpts (now st) (nextTimerId st)
  /\ storageEventListener st' = false
  /\ dialog st' = false
  /\ forall event, step exOpts exEnv (Storage event) st' = st'.
Proof.
  apply (reset_after_destroy_rearms exOpts exEnv exWarned reachable_exWarned).
  reflexivity.
Defined.

Lemma continue_publishes_logout_does_not_witness :
  let st := exWarned in
  onContinue exOpts <> Throws
  /\ getLastResetTime exEnv (handleContinue exOpts exEnv st)
     = Some (Num (now st))
  /\ localStorage (handleLogout exOpts st) = localStorage st.
Proof.
  cbn zeta.
  assert (Hc : onContinue exOpts <> Throws) by discriminate.
  destruct (continue_publishes_logout_does_not exOpts exEnv exWarned)
    as (H1 & H2 & _).
  split; [exact Hc |]. split; [exact (H1 Hc eq_refl) | exact H2].
Defined.


(** ** Across tabs, and unusual durations *)

Section Edges.

Context (opts : Options) (env : Env).

Lemma reconcile_keeps_store (st : State) :
  localStorage (reconcileOnActivation opts env st) = localStorage st.
Proof.
  unfold reconcileOnActivation.
  destruct (getLastResetTime env st) as [[| z] |];
    try apply (startTimers_fields opts st).
  destruct (truthyNum (Num z)); [| apply (startTimers_fields opts st)].
  destruct (warnAt opts <=? now st - z);
    [unfold showDialog; now destruct (dialog st) |].
  destruct (now st - z <? Z.min (warnAt opts) (timeoutAt opts));
    [| apply (startTimers_fields opts st)].
  destruct (0 <? Z.max 0 (warnAt opts - (now st - z))),
           (0 <? Z.max 0 (timeoutAt opts - (now st - z))); reflexivity.
Qed.

Lemma sessionTimeout_publishes (t : Z) (ls : gmap string string) (id : positive) :
  hasLocalStorage env = true ->
  localStorage (sessionTimeout opts env (freshSession t ls id)) !! storageKey
  = Some (toString t).
Proof.
  intros He. unfold sessionTimeout. rewrite reconcile_keeps_store.
  destruct (published_fields env t ls id) as (_ & _ & _ & _ & _ & _ & Hs).
  rewrite Hs, He. apply lookup_insert_eq.
Qed.

(** X14. Opening a tab resets the others.  An activation in a tab with a
    store leaves its own instant in the record; when the storage event
    for that record reaches another tab of the session, in whatever
    reachable state, less than [min warnAt timeoutAt] later, that tab
    closes its dialog and starts its countdown afresh from the instant of
    delivery. *)
Theorem new_tab_resets_other_tabs
        (t : Z) (ls : gmap string string) (id : positive) (a : State) :
  hasLocalStorage env = true ->
  reachable opts env a ->
  0 <= now a - t < Z.min (warnAt opts) (timeoutAt opts) ->
  let b := sessionTimeout opts env (freshSession t ls id) in
  exists v,
    localStorage b !! storageKey = Some v
    /\ let a' := handleStorageChange opts
                   (mkStorageEvent (Some storageKey) (Some v)) a in
       dialog a' = false
       /\ pending a' = freshTimers opts (now a) (nextTimerId a)
       /\ localStorage a' = localStorage a.
Proof.
  intros He Hr Hel. cbn zeta. exists (toString t).
  split; [now apply sessionTimeout_publishes |].
  rewrite (handleStorageChange_own_key opts (toString t) t a)
    by apply parseInt_toString.
  destruct (Z.leb_spec (warnAt opts) (now a - t)); [lia |].
  destruct (Z.ltb_spec (now a - t) (Z.min (warnAt opts) (timeoutAt opts)));
    [| lia].
  pose proof (reachable_Inv opts env a Hr) as HI.
  destruct (startTimers_fields opts (closeDialog a)) as (_ & Sd & Ss & _).
  destruct (closeDialog_trace a) as [_ Cd].
  destruct (closeDialog_fields a) as (Cn & _ & Ci & _).
  rewrite (startTimers_pending opts env) by now apply Inv_closeDialog.
  rewrite Sd, Ss, Cd, Cn, Ci, closeDialog_store. auto.
Qed.

(** X15. On a host without [window] or without [addEventListener] the
    session is local only: no handler is ever registered, so in every
    reachable state a storage event changes nothing. *)
Theorem local_only_without_listener (st : State) (event : StorageEvent) :
  hasWindow env = false \/ hasAddEventListener env = false ->
  reachable opts env st ->
  storageEventListener st = false
  /\ step opts env (Storage event) st = st.
Proof.
  intros He Hr. pose proof (reachable_Inv opts env st Hr) as HI.
  assert (Hl : storageEventListener st = false).
  { destruct (storageEventListener st) eqn:E; [| reflexivity].
    destruct (inv_listener _ _ HI E) as [Hw Ha].
    destruct He; congruence. }
  split; [exact Hl |]. unfold step. now rewrite Hl.
Qed.

Lemma nextDue_two_reversed (target : Z) (w r : Timer) :
  due r < due w ->
  nextDue target [w; r] = if due r <=? target then Some r else None.
Proof.
  intros Hlt. unfold nextDue. cbn.
  destruct (Z.leb_spec (due w) target), (Z.leb_spec (due r) target); cbn;
    try reflexivity; try lia.
  destruct (Z.ltb_spec (due r) (due w)); [reflexivity | lia].
Qed.

(** The queue [[w; r]] when the second timer is due first. *)
Lemma advanceTo_timeout_first (w r : Timer) (target : Z) (s : State) :
  pending s = [w; r] -> tid w <> tid r -> due r < due w ->
  now s <= target ->
  advanceTo opts target s
  = setNow target
      (if due w <=? target then fire opts w (fire opts r s)
       else if due r <=? target then fire opts r s
       else s).
Proof.
  intros Hp Hid Hlt Hnow. unfold advanceTo.
  destruct (Z.ltb_spec target (now s)); [lia |]. f_equal.
  rewrite Hp. cbn [length runDue].
  rewrite Hp, (nextDue_two_reversed target w r Hlt).
  assert (Hpr : pending (fire opts r s) = [w]).
  { rewrite fire_pending, Hp. unfold removeTimer. cbn.
    rewrite Pos.eqb_refl. cbn.
    destruct (Pos.eqb_spec (tid w) (tid r)); [congruence | reflexivity]. }
  destruct (Z.leb_spec (due r) target).
  - rewrite Hpr, nextDue_one.
    destruct (Z.leb_spec (due w) target); reflexivity.
  - destruct (Z.leb_spec (due w) target); [lia | reflexivity].
Qed.

(** X16. With [0 <= timeoutAt < warnAt] the countdown runs backwards:
    [onTimeout] is invoked first, [timeoutAt] after [startTimers], with the
    warn timer still pending; the dialog is then created and shown at
    [warnAt], after the session has timed out, and nothing is left to
    close it. *)
Theorem timeout_before_warning (st : State) :
  reachable opts env st ->
  0 <= timeoutAt opts < warnAt opts ->
  let st1 := startTimers opts st in
  let tt := now st + timeoutAt opts in
  let tw := now st + warnAt opts in
  (forall t, tt <= t < tw ->
     trace (advanceTo opts t st1)
     = trace st1 ++ closed (dialog st) tt
                 ++ invoked (onTimeout opts) EvOnTimeout tt
     /\ dialog (advanceTo opts t st1) = false
     /\ warnDue (advanceTo opts t st1) = [tw])
  /\ (forall t, tw <= t ->
        trace (advanceTo opts t st1)
        = trace st1 ++ closed (dialog st) tt
                    ++ invoked (onTimeout opts) EvOnTimeout tt
                    ++ shown false tw
        /\ dialog (advanceTo opts t st1) = true
        /\ pending (advanceTo opts t st1) = []).
Proof.
  intros Hr Hd. cbn zeta.
  pose proof (reachable_Inv opts env st Hr) as HI.
  pose proof (startTimers_pending opts env st HI) as Hp.
  destruct (startTimers_fields opts st) as (Hn & Hdl & _).
  unfold freshTimers in Hp. rewrite !Z.max_r in Hp by lia.
  set (w := mkTimer (nextTimerId st) (now st + warnAt opts) ShowDialogCb) in *.
  set (r := mkTimer (Pos.succ (nextTimerId st)) (now st + timeoutAt opts)
                    HandleTimeoutCb) in *.
  remember (startTimers opts st) as st1 eqn:Est1. clear Est1.
  assert (Hadv : forall t, now st <= t ->
            advanceTo opts t st1
            = setNow t (if due w <=? t then fire opts w (fire opts r st1)
                        else if due r <=? t then fire opts r st1 else st1)).
  { intros t Ht. apply advanceTo_timeout_first.
    - exact Hp.
    - unfold w, r. cbn. lia.
    - unfold w, r. cbn. lia.
    - rewrite Hn. exact Ht. }
  assert (Hpr : pending (fire opts r st1) = [w]).
  { rewrite fire_pending, Hp. unfold removeTimer. cbn.
    rewrite Pos.eqb_refl. cbn.
    destruct (Pos.eqb_spec (nextTimerId st) (Pos.succ (nextTimerId st)));
      [lia | reflexivity]. }
  destruct (fire_redirect opts r st1 eq_refl) as [Htr Hdr].
  destruct (fire_warn opts w (fire opts r st1) eq_refl) as [Htw Hdw].
  destruct (fire_fields opts r st1) as (_ & _ & _ & _ & _ & Hnr).
  rewrite Hn, Hdl in Htr. rewrite Hnr, Hn, Hdr, Htr in Htw.
  change (due r) with (now st + timeoutAt opts) in Htr, Htw.
  change (due w) with (now st + warnAt opts) in Htw.
  rewrite !(Z.max_r (now st)) in Htr by lia.
  rewrite (Z.max_r (now st)), Z.max_r in Htw by lia.
  split.
  - intros t [H1 H2]. rewrite Hadv by lia.
    change (due w) with (now st + warnAt opts).
    change (due r) with (now st + timeoutAt opts).
    destruct (Z.leb_spec (now st + warnAt opts) t); [lia |].
    destruct (Z.leb_spec (now st + timeoutAt opts) t); [| lia].
    rewrite setNow_trace, setNow_dialog. unfold warnDue.
    rewrite setNow_pending, Hpr. auto.
  - intros t H1. rewrite Hadv by lia.
    change (due w) with (now st + warnAt opts).
    destruct (Z.leb_spec (now st + warnAt opts) t); [| lia].
    rewrite setNow_trace, setNow_dialog, setNow_pending.
    split; [| split; [exact Hdw |]].
    + rewrite Htw. now rewrite <- !app_assoc.
    + rewrite fire_pending, Hpr. unfold removeTimer, w. cbn.
      now rewrite Pos.eqb_refl.
Qed.

(** X17. Negative durations count as zero.  With [warnAt <= 0] and
    [timeoutAt <= 0], both timers of [startTimers] are due at once: as soon
    as the host runs its timers the dialog is shown, closed again and
    [onTimeout] invoked, all stamped with the instant of [startTimers]. *)
Theorem nonpositive_durations_fire_at_once (st : State) :
  reachable opts env st ->
  warnAt opts <= 0 -> timeoutAt opts <= 0 ->
  let st1 := startTimers opts st in
  forall t, now st <= t ->
    trace (advanceTo opts t st1)
    = trace st1 ++ shown (dialog st) (now st)
                ++ [(now st, EvDialogClose)]
                ++ invoked (onTimeout opts) EvOnTimeout (now st)
    /\ dialog (advanceTo opts t st1) = false
    /\ pending (advanceTo opts t st1) = [].
Proof.
  intros Hr Hw Ht. cbn zeta. intros t Hle.
  pose proof (reachable_Inv opts env st Hr) as HI.
  pose proof (startTimers_pending opts env st HI) as Hp.
  destruct (startTimers_fields opts st) as (Hn & Hdl & _).
  unfold freshTimers in Hp. rewrite !Z.max_l, !Z.add_0_r in Hp by lia.
  set (w := mkTimer (nextTimerId st) (now st) ShowDialogCb) in *.
  set (r := mkTimer (Pos.succ (nextTimerId st)) (now st) HandleTimeoutCb) in *.
  remember (startTimers opts st) as st1 eqn:Est1. clear Est1.
  assert (Hadv : advanceTo opts t st1
                 = setNow t (fire opts r (fire opts w st1))).
  { rewrite (advanceTo_countdown opts w r t st1 Hp).
    - change (due r) with (now st).
      destruct (Z.leb_spec (now st) t); [reflexivity | lia].
    - unfold w, r. cbn. lia.
    - unfold w, r. cbn. lia.
    - rewrite Hn. exact Hle. }
  assert (Hpw : pending (fire opts w st1) = [r]).
  { rewrite fire_pending, Hp. unfold removeTimer. cbn.
    rewrite Pos.eqb_refl. cbn.
    destruct (Pos.eqb_spec (Pos.succ (nextTimerId st)) (nextTimerId st));
      [lia | reflexivity]. }
  destruct (fire_warn opts w st1 eq_refl) as [Htw Hdw].
  destruct (fire_redirect opts r (fire opts w st1) eq_refl) as [Htr Hdr].
  destruct (fire_fields opts w st1) as (_ & _ & _ & _ & _ & Hnw).
  rewrite Hn, Hdl in Htw. rewrite Hnw, Hn, Hdw, Htw in Htr.
  change (due w) with (now st) in Htw, Htr.
  change (due r) with (now st) in Htr.
  rewrite !Z.max_id in Htw. rewrite !Z.max_id in Htr.
  rewrite Hadv, setNow_trace, setNow_dialog, setNow_pending.
  split; [| split; [exact Hdr |]].
  - rewrite Htr. unfold closed. now rewrite <- !app_assoc.
  - rewrite fire_pending, Hpw. unfold removeTimer, r. cbn.
    now rewrite Pos.eqb_refl.
Qed.

End Edges.

Lemma new_tab_resets_other_tabs_witness :
  let a := exWarned in
  let b := sessionTimeout exOpts exEnv (freshSession 1100 exPersisted 7) in
  0 <= now a - 1100 < Z.min (warnAt exOpts) (timeoutAt exOpts)
  /\ exists v,
       localStorage b !! storageKey = Some v
       /\ let a' := handleStorageChange exOpts
                      (mkStorageEvent (Some storageKey) (Some v)) a in
          dialog a' = false
          /\ pending a' = freshTimers exOpts (now a) (nextTimerId a)
          /\ localStorage a' = localStorage a.
Proof.
  cbn zeta.
  assert (He : 0 <= now exWarned - 1100
               < Z.min (warnAt exOpts) (timeoutAt exOpts))
    by (vm_compute; split; [discriminate | reflexivity]).
  split; [exact He |].
  apply (new_tab_resets_other_tabs exOpts exEnv 1100 exPersisted 7 exWarned).
  - reflexivity.
  - exact reachable_exWarned.
  - exact He.
Defined.

Lemma local_only_without_listener_witness :
  let st := sessionTimeout exOpts exNoListener (freshSession 1000 ∅ 1) in
  hasAddEventListener exNoListener = false
  /\ storageEventListener st = false
  /\ step exOpts exNoListener (Storage (resetEvent 1000)) st = st.
Proof.
  cbn zeta. split; [reflexivity |].
  apply (local_only_without_listener exOpts exNoListener).
  - right. reflexivity.
  - apply reach_activation.
Defined.

Lemma timeout_before_warning_witness :
  let st := sessionTimeout exInverted exEnv (freshSession 1000 ∅ 1) in
  let st1 := startTimers exInverted st in
  let tt := now st + timeoutAt exInverted in
  let tw := now st + warnAt exInverted in
  0 <= timeoutAt exInverted < warnAt exInverted
  /\ trace (advanceTo exInverted (now st + 500) st1)
     = trace st1 ++ closed (dialog st) tt
                 ++ invoked (onTimeout exInverted) EvOnTimeout tt
                 ++ shown false tw
  /\ dialog (advanceTo exInverted (now st + 500) st1) = true
  /\ pending (advanceTo exInverted (now st + 500) st1) = [].
Proof.
  cbn zeta.
  assert (Hd : 0 <= timeoutAt exInverted < warnAt exInverted)
    by (vm_compute; split; [discriminate | reflexivity]).
  split; [exact Hd |].
  destruct (timeout_before_warning exInverted exEnv
              (sessionTimeout exInverted exEnv (freshSession 1000 ∅ 1))
              (reach_activation exInverted exEnv 1000 ∅ 1) Hd) as [_ H].
  apply H. vm_compute. discriminate.
Defined.

Lemma nonpositive_durations_fire_at_once_witness :
  let st := sessionTimeout exNegative exEnv (freshSession 1000 ∅ 1) in
  let st1 := startTimers exNegative st in
  (warnAt exNegative <= 0 /\ timeoutAt exNegative <= 0)
  /\ trace (advanceTo exNegative (now st) st1)
     = trace st1 ++ shown (dialog st) (now st)
                 ++ [(now st, EvDialogClose)]
                 ++ invoked (onTimeout exNegative) EvOnTimeout (now st)
  /\ dialog (advanceTo exNegative (now st) st1) = false
  /\ pending (advanceTo exNegative (now st) st1) = [].
Proof.
  cbn zeta.
  assert (Hw : warnAt exNegative <= 0) by (vm_compute; discriminate).
  assert (Ht : timeoutAt exNegative <= 0) by (vm_compute; discriminate).
  split; [split; assumption |].
  apply (nonpositive_durations_fire_at_once exNegative exEnv
           (sessionTimeout exNegative exEnv (freshSession 1000 ∅ 1))
           (reach_activation exNegative exEnv 1000 ∅ 1) Hw Ht).
  apply Z.le_refl.
Defined.

(** ** The timeout timer fires, once, at its due instant *)

Section FiresOnce.

Context (opts : Options) (env : Env).

Lemma tally_shown (b : bool) (t : Z) : tally isCallback (shown b t) = 0.
Proof. now destruct b. Qed.

Lemma tally_closed (b : bool) (t : Z) : tally isCallback (closed b t) = 0.
Proof. now destruct b. Qed.

(** Under the handle invariant the pending timeout timer is unique. *)
Lemma timeout_timer_unique (s : State) (r u : Timer) :
  Inv env s ->
  In r (pending s) -> In u (pending s) ->
  callback r = HandleTimeoutCb -> callback u = HandleTimeoutCb ->
  u = r.
Proof.
  intros HI Hr Hu Cr Cu.
  pose proof (inv_tracked _ _ HI) as Ht. rewrite List.Forall_forall in Ht.
  pose proof (Ht r Hr) as Tr. pose proof (Ht u Hu) as Tu.
  unfold tracked in Tr, Tu. rewrite Cr in Tr. rewrite Cu in Tu.
  apply (same_handle_same_timer (pending s)); auto.
  - apply (inv_nodup _ _ HI).
  - congruence.
Qed.

(** While only warn timers are pending, running the due ones invokes no
    user callback. *)
Lemma runDue_warn_only (fuel : nat) (target : Z) (s : State) :
  Forall (fun t => callback t = ShowDialogCb) (pending s) ->
  exists d, trace (runDue opts fuel target s) = trace s ++ d
            /\ tally isCallback d = 0.
Proof.
  revert s. induction fuel as [| fuel IH]; intros s Hw; cbn.
  - exists []. now rewrite app_nil_r.
  - destruct (nextDue target (pending s)) as [e |] eqn:E.
    + pose proof E as Hin. apply nextDue_In in Hin as [Hin _].
      rewrite List.Forall_forall in Hw. pose proof (Hw e Hin) as Ce.
      destruct (fire_warn opts e s Ce) as [Ft _].
      destruct (IH (fire opts e s)) as (d & Ed & Td).
      { rewrite fire_pending. apply List.Forall_forall. intros u Hu.
        apply removeTimer_In in Hu as [Hu _]. auto. }
      exists (shown (dialog s) (Z.max (now s) (due e)) ++ d).
      split.
      * now rewrite Ed, Ft, app_assoc.
      * now rewrite tally_app, tally_shown, Td.
    + exists []. now rewrite app_nil_r.
Qed.

(** Running the due timers up to or past the due instant of the pending
    timeout timer: the effects added are those of the timers fired before
    it, then the close of the dialog (if one was showing) and [onTimeout]
    stamped with that instant, then those of the timers fired after it;
    neither the part before nor the part after holds a user callback. *)
Lemma runDue_fires_timeout_once
      (fuel : nat) (target : Z) (s : State) (r : Timer) :
  Inv env s ->
  In r (pending s) -> callback r = HandleTimeoutCb ->
  now s <= due r <= target ->
  (length (pending s) <= fuel)%nat ->
  exists d before after,
    trace (runDue opts fuel target s)
    = trace s ++ before
              ++ (closed d (due r)
                  ++ invoked (onTimeout opts) EvOnTimeout (due r))
              ++ after
    /\ tally isCallback before = 0
    /\ tally isCallback after = 0.
Proof.
  revert s. induction fuel as [| fuel IH]; intros s HI Hin Hc Hd Hlen.
  - destruct (pending s); [destruct Hin | cbn in Hlen; lia].
  - cbn. destruct (nextDue target (pending s)) as [e |] eqn:E.
    + pose proof E as He. apply nextDue_In in He as [He _].
      destruct (Pos.eq_dec (tid e) (tid r)) as [Eid | Nid].
      * assert (e = r) as ->
          by (apply (same_handle_same_timer (pending s)); auto;
              apply (inv_nodup _ _ HI)).
        destruct (fire_redirect opts r s Hc) as [Ft _].
        rewrite Z.max_r in Ft by lia.
        destruct (runDue_warn_only fuel target (fire opts r s))
          as (after & Ea & Ta).
        { rewrite fire_pending. apply List.Forall_forall. intros u Hu.
          apply removeTimer_In in Hu as [Hu Hne].
          destruct (callback u) eqn:Cu; [reflexivity | exfalso].
          apply Hne. f_equal.
          now apply (timeout_timer_unique s r u). }
        exists (dialog s), [], after. cbn [app].
        rewrite Ea, Ft, <- !app_assoc. auto.
      * assert (Ce : callback e = ShowDialogCb).
        { destruct (callback e) eqn:Ce; [reflexivity | exfalso].
          apply Nid. f_equal. now apply (timeout_timer_unique s r e). }
        destruct (fire_warn opts e s Ce) as [Ft _].
        destruct (fire_fields opts e s) as (_ & _ & _ & _ & _ & Hn).
        destruct (IH (fire opts e s)) as (d & before & after & Et & Tb & Ta).
        -- now apply Inv_fire.
        -- rewrite fire_pending. apply removeTimer_In. auto.
        -- exact Hc.
        -- rewrite Hn.
           pose proof (nextDue_min target (pending s) e r E Hin). lia.
        -- rewrite fire_pending.
           pose proof (removeTimer_length e (pending s) He). lia.
        -- exists d, (shown (dialog s) (Z.max (now s) (due e)) ++ before),
             after.
           split; [| split; [| exact Ta]].
           ++ rewrite Et, Ft, <- !app_assoc. reflexivity.
           ++ now rewrite tally_app, tally_shown, Tb.
    + apply nextDue_None in E. rewrite List.Forall_forall in E.
      specialize (E r Hin). lia.
Qed.

Lemma advanceTo_fires_timeout_once (target : Z) (s : State) (r : Timer) :
  Inv env s ->
  In r (pending s) -> callback r = HandleTimeoutCb ->
  now s <= due r <= target ->
  (exists d before after,
     trace (advanceTo opts target s)
     = trace s ++ before
               ++ (closed d (due r)
                   ++ invoked (onTimeout opts) EvOnTimeout (due r))
               ++ after
     /\ tally isCallback before = 0
     /\ tally isCallback after = 0)
  /\ ~ In r (pending (advanceTo opts target s)).
Proof.
  intros HI Hin Hc Hd. split.
  - unfold advanceTo. destruct (Z.ltb_spec target (now s)); [lia |].
    rewrite setNow_trace. now apply runDue_fires_timeout_once.
  - intros Hp.
    destruct (advanceTo_complete opts target s) as [Hall _]; [lia |].
    rewrite List.Forall_forall in Hall. specialize (Hall r Hp). lia.
Qed.

(** C6, as the code has it.  In a reachable state.  Continue, when the
    user-supplied action returns or is absent: the dialog is gone and both
    legs are rearmed from zero, the warn callback due [warnAt] and the
    timeout callback [timeoutAt] from now (negative durations counting as
    zero), with nothing else pending.  Continue, when the action throws:
    the dialog, the pending timers, the handles and the store stay as they
    were; nothing is hidden and nothing restarts.  Log out, whatever its
    action does: no timer is cleared or set and both handle variables keep
    their values; the dialog is gone when the action returns or is absent
    and stays when it throws.  A timeout timer that was pending is then
    still pending with its due instant: when virtual time reaches that
    instant it leaves the queue and, among the effects added, [onTimeout]
    is the only user callback, invoked once and stamped with that
    instant. *)
Theorem continue_restarts_logout_does_not (st : State) :
  reachable opts env st ->
  (throws (onContinue opts) = false ->
   let st' := handleContinue opts env st in
   dialog st' = false
   /\ pending st' = freshTimers opts (now st) (nextTimerId st)
   /\ warnDue st' = [now st + Z.max 0 (warnAt opts)]
   /\ redirectDue st' = [now st + Z.max 0 (timeoutAt opts)]
   /\ now st' = now st)
  /\ (throws (onContinue opts) = true ->
      let st' := handleContinue opts env st in
      dialog st' = dialog st
      /\ pending st' = pending st
      /\ warnTimeoutId st' = warnTimeoutId st
      /\ redirectTimeoutId st' = redirectTimeoutId st
      /\ localStorage st' = localStorage st)
  /\ (let st' := handleLogout opts st in
      dialog st' = (if throws (onLogout opts) then dialog st else false)
      /\ pending st' = pending st
      /\ warnTimeoutId st' = warnTimeoutId st
      /\ redirectTimeoutId st' = redirectTimeoutId st
      /\ trace st'
         = trace st
           ++ invoked (onLogout opts) EvOnLogout (now st)
           ++ (if throws (onLogout opts) then []
               else closed (dialog st) (now st))
      /\ forall r target,
           In r (pending st) -> callback r = HandleTimeoutCb ->
           due r <= target ->
           (exists d before after,
              trace (advanceTo opts target st')
              = trace st' ++ before
                          ++ (closed d (due r)
                              ++ invoked (onTimeout opts) EvOnTimeout (due r))
                          ++ after
              /\ tally isCallback before = 0
              /\ tally isCallback after = 0)
           /\ ~ In r (pending (advanceTo opts target st'))).
Proof.
  intros Hr. pose proof (reachable_Inv opts env st Hr) as HI.
  split; [| split].
  - intros Ht. cbn zeta. unfold handleContinue. rewrite Ht.
    set (s1 := invoke (onContinue opts) EvOnContinue st).
    destruct (invoke_fields (onContinue opts) EvOnContinue st)
      as (In_ & _ & _ & Ii & _). fold s1 in In_, Ii.
    fold (reset opts env s1).
    destruct (reset_trace opts env s1) as (_ & Rd & Rn).
    assert (HI1 : Inv env (updateLastResetTime env (closeDialog s1))).
    { apply Inv_updateLastResetTime, Inv_closeDialog. unfold s1.
      now apply Inv_invoke. }
    pose proof (startTimers_pending opts env _ HI1) as Hp.
    destruct (updateLastResetTime_trace env (closeDialog s1))
      as (_ & Un & _ & Ui & _).
    destruct (closeDialog_fields s1) as (Cn & _ & Ci & _).
    rewrite Un, Ui, Cn, Ci, In_, Ii in Hp.
    fold (reset opts env s1) in Hp.
    unfold warnDue, redirectDue. rewrite Hp, Rd, Rn, In_. cbn. auto.
  - intros Ht. cbn zeta. unfold handleContinue. rewrite Ht.
    destruct (onContinue opts); cbn; auto.
  - cbn zeta.
    destruct (handleLogout_fields opts st) as (Ln & Lp & _ & Lw & Lr).
    pose proof (handleLogout_trace opts st) as Lt.
    assert (Ld : dialog (handleLogout opts st)
                 = (if throws (onLogout opts) then dialog st else false)).
    { unfold handleLogout. destruct (throws (onLogout opts)).
      - apply (invoke_fields (onLogout opts) EvOnLogout st).
      - apply closeDialog_trace. }
    split; [exact Ld |]. repeat (split; [assumption |]).
    intros r target Hin Hcb Hd.
    apply (advanceTo_fires_timeout_once target (handleLogout opts st) r).
    + now apply Inv_handleLogout.
    + now rewrite Lp.
    + exact Hcb.
    + rewrite Ln. split; [| exact Hd].
      pose proof (reachable_Sched opts env st Hr) as Hs.
      unfold Sched in Hs. rewrite List.Forall_forall in Hs. auto.
Qed.


End FiresOnce.

(** C6 as stated fails.  With the warning showing and an [onContinue]
    that throws, a click on Continue leaves the dialog up and restarts
    nothing: the old timeout timer is all that is pending and no warn
    timer is queued.  With an [onLogout] that throws, a click on Log out
    leaves the dialog up as well. *)
Lemma throwing_action_keeps_warning :
  let st := exWarnedThrowing in
  let st' := handleContinue exThrowing exEnv st in
  dialog st = true
  /\ dialog st' = true
  /\ pending st' = [mkTimer 2 1200 HandleTimeoutCb]
  /\ pending st' = pending st
  /\ warnDue st' = []
  /\ dialog (handleLogout exThrowing st) = true.
Proof. vm_compute. repeat split; reflexivity. Qed.

Lemma continue_restarts_logout_does_not_witness :
  let st := exWarned in
  let r := mkTimer 2 1200 HandleTimeoutCb in
  throws (onContinue exOpts) = false
  /\ (dialog (handleContinue exOpts exEnv st) = false
      /\ pending (handleContinue exOpts exEnv st)
         = freshTimers exOpts (now st) (nextTimerId st))
  /\ (dialog (handleLogout exOpts st)
      = (if throws (onLogout exOpts) then dialog st else false)
      /\ pending (handleLogout exOpts st) = pending st
      /\ redirectTimeoutId (handleLogout exOpts st) = redirectTimeoutId st
      /\ ~ In r (pending (advanceTo exOpts 1300 (handleLogout exOpts st)))).
Proof.
  cbn zeta.
  destruct (continue_restarts_logout_does_not exOpts exEnv exWarned
              reachable_exWarned) as (Kc & _ & Kl).
  destruct (Kc eq_refl) as (C1 & C2 & _).
  destruct Kl as (L1 & L2 & _ & L4 & _ & L6).
  assert (Hin : In (mkTimer 2 1200 HandleTimeoutCb) (pending exWarned))
    by (vm_compute; left; reflexivity).
  assert (Hd : due (mkTimer 2 1200 HandleTimeoutCb) <= 1300)
    by (vm_compute; discriminate).
  destruct (L6 (mkTimer 2 1200 HandleTimeoutCb) 1300 Hin eq_refl Hd)
    as [_ Hgone].
  auto 10.
Defined.


(** C8. With a record that [parseInt] cannot read in the store and
    [warnAt = 0], the activation does not start a fresh countdown.  The
    record is overwritten with the activation instant before it is read,
    so the value read is that instant, 0 ms old and not less recent than
    [warnAt]: the dialog is opened at once and no timer is armed, the
    timeout timer included, and no amount of waiting invokes [onTimeout].
    A fresh countdown, which [startTimers] gives and which the
    reconciliation block itself chooses when it is handed the unreadable
    record, has the warn timer due at 1000 and the timeout timer at
    1200. *)
Theorem malformed_record_zero_warn_arms_nothing :
  let st0 := freshSession 1000 exMalformed 1 in
  let st := sessionTimeout exZeroWarn exEnv st0 in
  getLastResetTime exEnv st0 = Some NaN
  /\ localStorage st !! storageKey = Some (toString 1000)
  /\ dialog st = true
  /\ pending st = []
  /\ tally isCallback (trace (advanceTo exZeroWarn 1000000 st)) = 0
  /\ pending (startTimers exZeroWarn (setupStorageListener exEnv st0))
     = [ mkTimer 1 1000 ShowDialogCb; mkTimer 2 1200 HandleTimeoutCb ]
  /\ pending (reconcileOnActivation exZeroWarn exEnv st0)
     = [ mkTimer 1 1000 ShowDialogCb; mkTimer 2 1200 HandleTimeoutCb ].
Proof. vm_compute. repeat split; reflexivity. Qed.
